(** * Nonogram generator: the grid quantizer and the clue deriver

    A shallow embedding of [src/App.tsx]: [calculateNumbers] (the clue
    deriver), the grid-building loop of [generateNonogram] (the grid
    quantizer) and the handlers that set the [columns] and [rows] state,
    followed by the properties the specification states about them. *)

From Stdlib Require Import ZArith List Bool Lia QArith Qround.
From Stdlib Require Import Floats.PrimFloat Floats.FloatAxioms Numbers.Cyclic.Int63.Uint63.
From stdpp Require Import base option list list_numbers strings pretty.

Local Open Scope Z_scope.

(** ** Array helpers

    The array methods the source calls, with the callback's [(element, index)]
    arguments.  A callback that assigns to variables of the enclosing
    function receives them as a state and returns their new values; a
    callback that can raise a [TypeError] returns [None] for it. *)
Module JS.

(** [arr.forEach((x, index) => ...)], started at [index]. *)
Fixpoint forEach_from {A S : Type} (cb : A -> Z -> S -> S)
    (index : Z) (arr : list A) (st : S) : S :=
  match arr with
  | [] => st
  | x :: rest => forEach_from cb (index + 1) rest (cb x index st)
  end.

Definition forEach {A S : Type} (cb : A -> Z -> S -> S) (arr : list A) (st : S) : S :=
  forEach_from cb 0 arr st.

(** [forEach] with a callback that can raise: the first exception ends
    the loop. *)
Fixpoint forEachE_from {A S : Type} (cb : A -> Z -> S -> option S)
    (index : Z) (arr : list A) (st : S) : option S :=
  match arr with
  | [] => Some st
  | x :: rest =>
      match cb x index st with
      | Some st' => forEachE_from cb (index + 1) rest st'
      | None => None
      end
  end.

Definition forEachE {A S : Type} (cb : A -> Z -> S -> option S)
    (arr : list A) (st : S) : option S :=
  forEachE_from cb 0 arr st.

(** [arr.map((x, index) => ...)] with a callback that can raise. *)
Fixpoint mapE_from {A B : Type} (cb : A -> Z -> option B)
    (index : Z) (arr : list A) : option (list B) :=
  match arr with
  | [] => Some []
  | x :: rest =>
      match cb x index with
      | Some y =>
          match mapE_from cb (index + 1) rest with
          | Some ys => Some (y :: ys)
          | None => None
          end
      | None => None
      end
  end.

Definition mapE {A B : Type} (cb : A -> Z -> option B) (arr : list A) : option (list B) :=
  mapE_from cb 0 arr.

(** [Array(n).fill(v)] *)
Definition Array_fill {A : Type} (n : nat) (v : A) : list A := replicate n v.

(** [arr.length] as a number. *)
Definition len {A : Type} (arr : list A) : Z := Z.of_nat (length arr).

(** [arr[i]]: [None] is [undefined]. *)
Definition get {A : Type} (arr : list A) (i : Z) : option A :=
  if i <? 0 then None else arr !! Z.to_nat i.

(** [for (let i = 0; i < hi; i++) body], the loop variable starting at
    [i]; [fuel] bounds the number of iterations. *)
Fixpoint for_from {S : Type} (fuel : nat) (i hi : Z) (body : Z -> S -> S) (st : S) : S :=
  match fuel with
  | O => st
  | Datatypes.S k => if i <? hi then for_from k (i + 1) hi body (body i st) else st
  end.

(** The loop runs [hi] times when [hi] is positive and not at all
    otherwise, so [Z.to_nat hi] is fuel enough. *)
Definition for_upto {S : Type} (hi : Z) (body : Z -> S -> S) (st : S) : S :=
  for_from (Z.to_nat hi) 0 hi body st.

End JS.

(** ** The clue deriver: [calculateNumbers] *)

Record NonogramCell : Type := { filled : bool; color : string }.

Abbreviation Grid := (list (list NonogramCell)).

(** The variables [numbers] and [currentCount] of one line's scan. *)
Definition ScanState : Type := (list Z * Z)%type.

(** The callback of [row.forEach] (lines 31-41). *)
Definition rowCallback (row : list NonogramCell)
    (cell : NonogramCell) (index : Z) (st : ScanState) : ScanState :=
  let '(numbers, currentCount) := st in
  if filled cell then
    let currentCount := currentCount + 1 in
    if index =? JS.len row - 1
    then (numbers ++ [currentCount], currentCount)
    else (numbers, currentCount)
  else if 0 <? currentCount then (numbers ++ [currentCount], 0)
  else (numbers, currentCount).

(** [numbers.length ? numbers : [0]] (lines 43 and 63). *)
Definition orZero (numbers : list Z) : list Z :=
  if JS.len numbers =? 0 then [0] else numbers.

(** The callback of [grid.map] (lines 27-44). *)
Definition rowNumbersOf (row : list NonogramCell) : list Z :=
  let '(numbers, _) := JS.forEach (rowCallback row) row ([], 0) in
  orZero numbers.

(** The callback of [grid.forEach] (lines 51-61); [row[colIndex].filled]
    raises a [TypeError] when [row[colIndex]] is [undefined]. *)
Definition colCallback (grid : Grid) (colIndex : Z)
    (row : list NonogramCell) (rowIndex : Z) (st : ScanState) : option ScanState :=
  let '(numbers, currentCount) := st in
  match JS.get row colIndex with
  | None => None
  | Some cell =>
      Some (if filled cell then
              let currentCount := currentCount + 1 in
              if rowIndex =? JS.len grid - 1
              then (numbers ++ [currentCount], currentCount)
              else (numbers, currentCount)
            else if 0 <? currentCount then (numbers ++ [currentCount], 0)
            else (numbers, currentCount))
  end.

(** The callback of [Array(...).fill(0).map] (lines 47-64). *)
Definition colNumbersOf (grid : Grid) (_ : Z) (colIndex : Z) : option (list Z) :=
  match JS.forEachE (colCallback grid colIndex) grid ([], 0) with
  | Some (numbers, _) => Some (orZero numbers)
  | None => None
  end.

(** [calculateNumbers] (lines 25-68): the values handed to [setRowNumbers]
    and [setColumnNumbers], or [None] when a [TypeError] is raised before
    they are set; [grid[0].length] raises one when [grid] is empty. *)
Definition calculateNumbers (grid : Grid) : option (list (list Z) * list (list Z)) :=
  let rowNums := map rowNumbersOf grid in
  match JS.get grid 0 with
  | None => None
  | Some first =>
      match JS.mapE (colNumbersOf grid) (JS.Array_fill (length first) 0) with
      | Some colNums => Some (rowNums, colNums)
      | None => None
      end
  end.

(** ** The grid quantizer: [generateNonogram]

    The canvas is the browser's: [generateNonogram] sizes it to
    [columns] x [rows], paints it white, draws the image scaled and centred
    (lines 75-99) and reads the pixels back with [getImageData] (line 101).
    The embedding starts from [imageData.data], an array of bytes with four
    entries (red, green, blue, alpha) per pixel, in row-major order. *)

(** An integer as a JS number (a double); the array holds bytes. *)
Definition toNumber (v : Z) : float := PrimFloat.of_uint63 (Uint63.of_Z v).

(** [imageData.data[i]] as an operand of [+]: an index outside the array
    gives [undefined], which [+] turns into [NaN]. *)
Definition readNumber (data : list Z) (i : Z) : float :=
  match JS.get data i with
  | Some v => toNumber v
  | None => PrimFloat.nan
  end.

(** [imageData.data[i]] inside a template literal. *)
Definition readString (data : list Z) (i : Z) : string :=
  match JS.get data i with
  | Some v => pretty v
  | None => "undefined"
  end.

(** Line 109. *)
Definition brightnessAt (data : list Z) (i : Z) : float :=
  PrimFloat.div
    (PrimFloat.add (PrimFloat.add (readNumber data i) (readNumber data (i + 1)))
                   (readNumber data (i + 2)))
    3%float.

(** The object pushed at lines 110-113. *)
Definition cellAt (data : list Z) (i : Z) : NonogramCell :=
  {| filled := PrimFloat.ltb (brightnessAt data i) 128%float;
     color := "rgb(" +:+ readString data i +:+ ", " +:+ readString data (i + 1)
                     +:+ ", " +:+ readString data (i + 2) +:+ ")" |}.

(** The inner loop (lines 106-114). *)
Definition buildRow (data : list Z) (columns y : Z) : list NonogramCell :=
  JS.for_upto columns
    (fun x row => let i := (y * columns + x) * 4 in row ++ [cellAt data i])
    [].

(** The outer loop (lines 104-116). *)
Definition buildGrid (data : list Z) (columns rows : Z) : Grid :=
  JS.for_upto rows (fun y grid => grid ++ [buildRow data columns y]) [].

(** Lines 104-118: the grid handed to [setNonogramGrid] and the outcome of
    [calculateNumbers] on it. *)
Definition generateNonogram (data : list Z) (columns rows : Z)
    : Grid * option (list (list Z) * list (list Z)) :=
  let grid := buildGrid data columns rows in
  (grid, calculateNumbers grid).

(** ** The [columns] and [rows] state

    The component's state, the three handlers that change it, and the
    [(columns, rows)] pairs [generateNonogram] runs with.  A file read and
    the decoding of its image are taken as one step.  The aspect ratio and
    its product with [columns] are exact rationals here, where the source
    has doubles: the two agree where the quotient and the product are exact
    in binary64 (as for an image of 400 x 100 and 15 columns) and can
    differ by one where the exact product is a tie or the rounded one
    becomes a tie; an image of width 0 is outside the model.  Only the
    first upload computes with them. *)

Record Image : Type := { width : Z; height : Z; src : string }.

Record AppState : Type := { image : option string; columns : Z; rows : Z }.

(** The [useState] initial values (lines 16-18). *)
Definition initialState : AppState := {| image := None; columns := 15; rows := 15 |}.

Inductive Event : Type :=
| ColumnsInput (parsed : option Z)   (* [parseInt(e.target.value)], [None] for [NaN] *)
| RowsInput (parsed : option Z)
| ImageUpload (img : Image).

(** [Math.round]: the nearest integer, a tie going up. *)
Definition Math_round (q : Q) : Z := Qfloor (q + (1 # 2)).

(** [Math.max(5, Math.min(50, value))] *)
Definition clamp (value : Z) : Z := Z.max 5 (Z.min 50 value).

(** Lines 211-216. *)
Definition onColumnsChange (parsed : option Z) (st : AppState) : AppState :=
  match parsed with
  | Some value =>
      if 0 <? value
      then {| image := image st; columns := clamp value; rows := rows st |}
      else st
  | None => st
  end.

(** Lines 229-234. *)
Definition onRowsChange (parsed : option Z) (st : AppState) : AppState :=
  match parsed with
  | Some value =>
      if 0 <? value
      then {| image := image st; columns := columns st; rows := clamp value |}
      else st
  | None => st
  end.

(** Lines 130-134, in the closure of the render [st]. *)
Definition rowsAfterUpload (img : Image) (st : AppState) : Z :=
  match image st with
  | None =>
      let aspectRatio := (inject_Z (height img) / inject_Z (width img))%Q in
      Math_round (inject_Z (columns st) * aspectRatio)%Q
  | Some _ => rows st
  end.

(** Lines 123-142: the state after [setImage] and [setRows]. *)
Definition handleImageUpload (img : Image) (st : AppState) : AppState :=
  {| image := Some (src img); columns := columns st; rows := rowsAfterUpload img st |}.

Definition handle (ev : Event) (st : AppState) : AppState :=
  match ev with
  | ColumnsInput parsed => onColumnsChange parsed st
  | RowsInput parsed => onRowsChange parsed st
  | ImageUpload img => handleImageUpload img st
  end.

Definition dims (st : AppState) : Z * Z := (columns st, rows st).

(** The effect of lines 169-175 after a render that changed [st] into
    [st']: it runs when [columns], [rows] or [image] changed, and calls
    [generateNonogram] when there is an image. *)
Definition effectRuns (st st' : AppState) : list (Z * Z) :=
  if bool_decide (image st = image st' /\ columns st = columns st' /\ rows st = rows st')
  then []
  else match image st' with
       | Some _ => [dims st']
       | None => []
       end.

(** The [generateNonogram] calls an event causes, each with the
    [(columns, rows)] of its closure.  An upload sets the image, which runs
    the effect with the rows of [st]; [img.onload] then calls
    [generateNonogram] directly (line 135), still in the closure of [st],
    and its [setRows] runs the effect again. *)
Definition quantizerRuns (ev : Event) (st : AppState) : list (Z * Z) :=
  match ev with
  | ImageUpload img =>
      let st1 := {| image := Some (src img); columns := columns st; rows := rows st |} in
      effectRuns st st1 ++ [dims st] ++ effectRuns st1 (handle ev st)
  | _ => effectRuns st (handle ev st)
  end.

(** The state after a sequence of events, and every [generateNonogram]
    call on the way. *)
Fixpoint runEvents (evs : list Event) (st : AppState) : AppState * list (Z * Z) :=
  match evs with
  | [] => (st, [])
  | ev :: rest =>
      let '(final, runs) := runEvents rest (handle ev st) in
      (final, quantizerRuns ev st ++ runs)
  end.

(** ** The notions of the specification *)

(** The filled/unfilled pattern of a line. *)
Definition pattern (line : list NonogramCell) : list bool := map filled line.

(** The number of filled cells of a line. *)
Definition filledCount (line : list NonogramCell) : Z :=
  JS.len (List.filter (fun b : bool => b) (pattern line)).

(** The sum of a clue sequence. *)
Definition clueSum (numbers : list Z) : Z := foldr Z.add 0 numbers.

(** Lengthening the first run by [c] cells, or opening one of [c] cells. *)
Definition addHead (c : Z) (runs : list Z) : list Z :=
  match runs with
  | [] => [c]
  | r :: runs' => (c + r) :: runs'
  end.

(** The lengths of the maximal runs of filled cells, in reading order,
    read off the pattern from its end: a filled cell lengthens the run
    that starts right after it, or opens a run of its own. *)
Fixpoint maximalRuns (l : list bool) : list Z :=
  match l with
  | [] => []
  | false :: t => maximalRuns t
  | true :: t =>
      match t with
      | true :: _ => addHead 1 (maximalRuns t)
      | _ => 1 :: maximalRuns t
      end
  end.

(** The same notion as a relation: a pattern is a sequence of gaps and of
    blocks of [n >= 1] filled cells, each block ending the line or followed
    by an unfilled cell. *)
Inductive RunsOf : list bool -> list Z -> Prop :=
| RunsOf_nil : RunsOf [] []
| RunsOf_gap l rs : RunsOf l rs -> RunsOf (false :: l) rs
| RunsOf_last n : (0 < n)%nat -> RunsOf (replicate n true) [Z.of_nat n]
| RunsOf_block n l rs :
    (0 < n)%nat -> RunsOf l rs ->
    RunsOf (replicate n true ++ false :: l) (Z.of_nat n :: rs).

(** A grid with at least one row, every row as long as the first. *)
Definition wellFormed (grid : Grid) : Prop :=
  match grid with
  | [] => False
  | first :: rest => Forall (fun row => length row = length first) rest
  end.

(** The number of columns: [grid[0].length]. *)
Definition gridWidth (grid : Grid) : nat :=
  match grid with
  | [] => O
  | first :: _ => length first
  end.

(** Column [c], top to bottom; a row too short for [c] contributes nothing. *)
Definition columnOf (grid : Grid) (c : nat) : list NonogramCell :=
  omap (fun row : list NonogramCell => row !! c) grid.

(** The transpose of a grid of [w] columns: each row is laid along the
    columns built from the rows below it. *)
Fixpoint transposeW (w : nat) (grid : Grid) : Grid :=
  match grid with
  | [] => replicate w []
  | row :: rest => zip_with cons row (transposeW w rest)
  end.

Definition transpose (grid : Grid) : Grid := transposeW (gridWidth grid) grid.

(** Two grids of the same dimensions that agree on the [filled] field of
    every cell. *)
Definition sameFilled (g1 g2 : Grid) : Prop :=
  Forall2 (Forall2 (fun c1 c2 => filled c1 = filled c2)) g1 g2.

(** [p] holds at every integer from [0] to [n - 1]. *)
Fixpoint allBelow (n : nat) (p : Z -> bool) : bool :=
  match n with
  | O => true
  | S k => p (Z.of_nat k) && allBelow k p
  end.

(** A cell with a given [filled] field, for examples. *)
Definition mk (b : bool) : NonogramCell := {| filled := b; color := "rgb(0, 0, 0)" |}.

(** What a scan that starts with [c] cells counted appends while reading
    [l]. *)
Definition pending (c : Z) (l : list bool) : list Z :=
  if c =? 0 then maximalRuns l
  else match l with
       | true :: _ => addHead c (maximalRuns l)
       | _ => c :: maximalRuns l
       end.

(** [P line numbers] holds of every row of the grid with its entry in
    [rowNums] and of every column with its entry in [colNums]. *)
Definition eachLine (P : list NonogramCell -> list Z -> Prop)
    (grid : Grid) (rowNums colNums : list (list Z)) : Prop :=
  (forall y row, grid !! y = Some row ->
     exists numbers, rowNums !! y = Some numbers /\ P row numbers) /\
  (forall c, (c < gridWidth grid)%nat ->
     exists numbers, colNums !! c = Some numbers /\
       length (columnOf grid c) = length grid /\ P (columnOf grid c) numbers).

(** Grids for examples: three rows of four cells, and the same cells in
    another colour. *)
Definition sampleGrid : Grid :=
  [ map mk [true; true; false; true];
    map mk [false; true; false; false];
    map mk [true; true; true; true] ].

Definition recolour (c : NonogramCell) : NonogramCell :=
  {| filled := filled c; color := "rgb(17, 34, 51)" |}.

(** The array [getImageData] returns for a canvas of [n] pixels, all of
    one colour. *)
Definition uniformData (n : nat) (r g b : Z) : list Z :=
  concat (replicate n [r; g; b; 255]).

(** A decoded image four times as wide as it is high. *)
Definition wideImage : Image := {| width := 400; height := 100; src := "data:image/png;wide" |}.

Definition inRange (n : Z) : Prop := 5 <= n <= 50.

(** The grid cut to the length of its first row. *)
Definition trimToWidth (grid : Grid) : Grid := map (take (gridWidth grid)) grid.

(** The shortest line with the clue sequence [rs]: a block of filled cells
    for every number, one unfilled cell between two blocks. *)
Fixpoint lineOfClues (rs : list Z) : list bool :=
  match rs with
  | [] => []
  | r :: rest =>
      replicate (Z.to_nat r) true
      ++ match rest with
         | [] => []
         | _ => false :: lineOfClues rest
         end
  end.

(** The values [Math.max] returns here: an integer, or [-Infinity] when it
    is called without arguments. *)
Inductive JSNumber : Type :=
| NegInfinity
| Num (z : Z).

(** [Math.max(...xs)] *)
Definition Math_max (xs : list Z) : JSNumber :=
  match xs with
  | [] => NegInfinity
  | x :: rest => Num (foldl Z.max x rest)
  end.

(** Line 177, and line 178 for the column numbers. *)
Definition maxRowNumbersLength (rowNumbers : list (list Z)) : JSNumber :=
  Math_max (map (fun arr => JS.len arr) rowNumbers).

Definition maxColumnNumbersLength (columnNumbers : list (list Z)) : JSNumber :=
  Math_max (map (fun arr => JS.len arr) columnNumbers).

(** The array with every alpha byte (the fourth of each pixel) replaced by
    the value [alpha] gives for its index. *)
Definition setAlpha (alpha : nat -> Z) (data : list Z) : list Z :=
  imap (fun i v => if Z.of_nat i mod 4 =? 3 then alpha i else v) data.

(** The cell the quantizer builds from a pixel of colour [(r, g, b)]. *)
Definition cellOfColour (r g b : Z) : NonogramCell := cellAt [r; g; b; 255] 0.

(** An event of one of the two number inputs. *)
Definition isInput (ev : Event) : bool :=
  match ev with
  | ImageUpload _ => false
  | _ => true
  end.

(** A grid whose second row is one cell longer than the first. *)
Definition overhangGrid : Grid := [map mk [true; false]; map mk [true; true; true]].

(** A state with an image and the initial dimensions. *)
Definition loadedState : AppState :=
  {| image := Some "data:image/png;first"; columns := 15; rows := 15 |}.

(** * Properties *)

(** ** Runs *)

Lemma addHead_addHead c d rs : addHead c (addHead d rs) = addHead (c + d) rs.
Proof. destruct rs; simpl; f_equal; lia. Qed.

Lemma maximalRuns_true_cons t :
  maximalRuns (true :: t) = pending 1 t.
Proof. unfold pending; simpl. destruct t as [|[] t]; reflexivity. Qed.

Lemma pending_true c t :
  0 <= c -> pending c (true :: t) = pending (c + 1) t.
Proof.
  intros Hc. unfold pending.
  destruct (Z.eqb_spec (c + 1) 0) as [|_]; [lia|].
  destruct (Z.eqb_spec c 0) as [->|Hne].
  - rewrite maximalRuns_true_cons. reflexivity.
  - rewrite maximalRuns_true_cons. unfold pending. simpl.
    destruct t as [|[] t]; simpl; rewrite ?addHead_addHead; f_equal; lia.
Qed.

Lemma pending_false c t :
  pending c (false :: t) = (if c =? 0 then [] else [c]) ++ pending 0 t.
Proof. unfold pending. destruct (Z.eqb_spec c 0); reflexivity. Qed.

Lemma pending_nil c : pending c [] = if c =? 0 then [] else [c].
Proof. unfold pending. destruct (c =? 0); reflexivity. Qed.

(** ** The scan of one line *)

Lemma len_cons {A} (x : A) l : JS.len (x :: l) = JS.len l + 1.
Proof. unfold JS.len. simpl length. lia. Qed.

Lemma len_nonneg {A} (l : list A) : 0 <= JS.len l.
Proof. unfold JS.len. lia. Qed.

Lemma scan_from (row : list NonogramCell) :
  forall rest index numbers c,
    0 <= c ->
    index + JS.len rest = JS.len row ->
    rest <> [] \/ c = 0 ->
    (JS.forEach_from (rowCallback row) index rest (numbers, c)).1
    = numbers ++ pending c (pattern rest).
Proof.
  induction rest as [|cell rest IH]; intros index numbers c Hc Hlen Hne.
  - destruct Hne as [Hne | ->]; [congruence|]. simpl. by rewrite app_nil_r.
  - rewrite len_cons in Hlen. pose proof (len_nonneg rest) as Hrest.
    cbn [JS.forEach_from pattern map]. fold (pattern rest).
    unfold rowCallback at 2. destruct (filled cell).
    + rewrite pending_true by done.
      destruct (Z.eqb_spec index (JS.len row - 1)) as [Hlast|Hmore].
      * assert (rest = []) as ->
          by (destruct rest; [done|unfold JS.len in *; simpl length in *; lia]).
        simpl. rewrite pending_nil.
        destruct (Z.eqb_spec (c + 1) 0); [lia|done].
      * apply IH; [lia|lia|]. left. intros ->. unfold JS.len in *. simpl in *. lia.
    + rewrite pending_false.
      destruct (Z.ltb_spec 0 c) as [Hpos|Hzero].
      * destruct (Z.eqb_spec c 0); [lia|].
        rewrite IH by (try lia; by right). by rewrite <- app_assoc.
      * assert (c = 0) as -> by lia. simpl.
        apply IH; [lia|lia|by right].
Qed.

(** The clue sequence of a line is the list of its maximal runs, or [[0]]
    when there is none. *)
Lemma rowNumbersOf_runs (row : list NonogramCell) :
  rowNumbersOf row = orZero (maximalRuns (pattern row)).
Proof.
  unfold rowNumbersOf, JS.forEach.
  pose proof (scan_from row row 0 [] 0) as H.
  destruct (JS.forEach_from _ _ _ _) as [numbers c].
  simpl in H. rewrite H; [reflexivity|lia|lia|by right].
Qed.

(** ** [maximalRuns] against the relation [RunsOf] *)

Lemma maximalRuns_block n t :
  t = [] \/ (exists t', t = false :: t') ->
  maximalRuns (replicate (S n) true ++ t) = Z.of_nat (S n) :: maximalRuns t.
Proof.
  intros Ht. induction n as [|n IH].
  - destruct Ht as [-> | [t' ->]]; reflexivity.
  - change (replicate (S (S n)) true ++ t) with (true :: replicate (S n) true ++ t).
    rewrite maximalRuns_true_cons. unfold pending.
    change (replicate (S n) true ++ t) with (true :: replicate n true ++ t) at 1.
    cbn [Z.eqb]. rewrite IH. simpl addHead. f_equal. lia.
Qed.

Lemma RunsOf_maximalRuns l rs : RunsOf l rs -> rs = maximalRuns l.
Proof.
  induction 1 as [|l rs _ IH|n Hn|n l rs Hn _ IH].
  - reflexivity.
  - exact IH.
  - destruct n as [|n]; [lia|].
    rewrite <- (app_nil_r (replicate (S n) true)).
    rewrite maximalRuns_block by (by left). reflexivity.
  - destruct n as [|n]; [lia|].
    rewrite maximalRuns_block by (right; eauto). simpl. by rewrite IH.
Qed.

Lemma RunsOf_false_inv t rs : RunsOf (false :: t) rs -> RunsOf t rs.
Proof.
  inversion 1 as [|l' rs' H'|n Hn Heq|n l' rs' Hn H' Heq]; subst.
  - assumption.
  - destruct n; [lia|discriminate].
  - destruct n; [lia|discriminate].
Qed.

Lemma RunsOf_true_cons t rs :
  RunsOf t rs ->
  RunsOf (true :: t)
    (match t with true :: _ => addHead 1 rs | _ => 1 :: rs end).
Proof.
  intros H. destruct t as [|[] t].
  - inversion H; subst; [apply (RunsOf_last 1); lia| |]; destruct n; (lia || discriminate).
  - inversion H as [| |n Hn Heq|n l' rs' Hn H' Heq]; subst.
    + replace (addHead 1 [Z.of_nat n]) with [Z.of_nat (S n)]
        by (simpl; f_equal; lia).
      apply (RunsOf_last (S n)). lia.
    + replace (addHead 1 (Z.of_nat n :: rs')) with (Z.of_nat (S n) :: rs')
        by (simpl; f_equal; lia).
      apply (RunsOf_block (S n) l' rs'); [lia|assumption].
  - apply (RunsOf_block 1); [lia|]. by apply RunsOf_false_inv.
Qed.

Lemma maximalRuns_RunsOf l : RunsOf l (maximalRuns l).
Proof.
  induction l as [|[] t IH].
  - constructor.
  - apply RunsOf_true_cons in IH. destruct t as [|[] t]; exact IH.
  - by constructor.
Qed.

(** [maximalRuns] computes the relation: the runs of a pattern exist and
    are unique. *)
Lemma RunsOf_iff l rs : RunsOf l rs <-> rs = maximalRuns l.
Proof.
  split; [apply RunsOf_maximalRuns|intros ->; apply maximalRuns_RunsOf].
Qed.

(** ** Sums, signs and sizes of runs *)

Lemma clueSum_addHead c rs : clueSum (addHead c rs) = c + clueSum rs.
Proof. destruct rs; simpl; lia. Qed.

Lemma pending_one_sum t : clueSum (pending 1 t) = 1 + clueSum (maximalRuns t).
Proof.
  unfold pending. simpl. destruct t as [|[] t]; rewrite ?clueSum_addHead; reflexivity.
Qed.

Lemma clueSum_maximalRuns l :
  clueSum (maximalRuns l) = JS.len (List.filter (fun b : bool => b) l).
Proof.
  induction l as [|[] t IH].
  - reflexivity.
  - rewrite maximalRuns_true_cons, pending_one_sum, IH.
    simpl List.filter. rewrite len_cons. lia.
  - exact IH.
Qed.

Lemma Forall_pos_addHead rs : Forall (fun n => 0 < n) rs -> Forall (fun n => 0 < n) (addHead 1 rs).
Proof.
  destruct rs as [|r rs]; simpl; intros H.
  - repeat constructor.
  - inversion H; subst. constructor; [lia|assumption].
Qed.

Lemma maximalRuns_pos l : Forall (fun n => 0 < n) (maximalRuns l).
Proof.
  induction l as [|[] t IH].
  - constructor.
  - rewrite maximalRuns_true_cons. unfold pending. simpl.
    destruct t as [|[] t]; [repeat constructor; lia|by apply Forall_pos_addHead|].
    constructor; [lia|assumption].
  - exact IH.
Qed.

Lemma addHead_nonempty c rs : addHead c rs <> [].
Proof. by destruct rs. Qed.

Lemma maximalRuns_nil_iff l : maximalRuns l = [] <-> Forall (fun b => b = false) l.
Proof.
  induction l as [|[] t IH].
  - split; [constructor|reflexivity].
  - rewrite maximalRuns_true_cons. unfold pending. simpl. split.
    + destruct t as [|[] t]; [discriminate| |discriminate].
      intros H. by apply addHead_nonempty in H.
    + inversion 1; discriminate.
  - simpl. rewrite IH. split; [by constructor|by inversion 1].
Qed.

(** Runs and the gaps between them fit in the line; a line that starts
    with an unfilled cell has one cell to spare. *)
Lemma maximalRuns_fit l :
  clueSum (maximalRuns l) + JS.len (maximalRuns l)
  <= JS.len l + (match l with true :: _ => 1 | _ => 0 end).
Proof.
  induction l as [|b t IH].
  - unfold JS.len. simpl. lia.
  - rewrite len_cons. destruct b.
    + rewrite maximalRuns_true_cons. unfold pending. cbn [Z.eqb].
      destruct t as [|[] t].
      * unfold JS.len in *. simpl in *. lia.
      * rewrite clueSum_addHead.
        assert (JS.len (addHead 1 (maximalRuns (true :: t)))
                = JS.len (maximalRuns (true :: t))) as ->.
        { destruct (maximalRuns (true :: t)) eqn:E; [|reflexivity].
          apply maximalRuns_nil_iff in E. inversion E; discriminate. }
        lia.
      * change (clueSum (1 :: ?r)) with (1 + clueSum r).
        rewrite len_cons. lia.
    + simpl maximalRuns. destruct t as [|[] t]; lia.
Qed.

(** ** The column scan is the row scan of the column *)

Lemma get_of_nat {A} (l : list A) (i : nat) : JS.get l (Z.of_nat i) = l !! i.
Proof.
  unfold JS.get. destruct (Z.ltb_spec (Z.of_nat i) 0); [lia|].
  by rewrite Nat2Z.id.
Qed.

Lemma columnOf_cons row rows c cell :
  row !! c = Some cell -> columnOf (row :: rows) c = cell :: columnOf rows c.
Proof. intros H. unfold columnOf. simpl. by rewrite H. Qed.

Lemma columnOf_length rows c :
  Forall (fun row : list NonogramCell => is_Some (row !! c)) rows ->
  length (columnOf rows c) = length rows.
Proof.
  induction 1 as [|row rows [cell Hc] _ IH]; [reflexivity|].
  rewrite (columnOf_cons _ _ _ _ Hc). simpl. by rewrite IH.
Qed.

Lemma col_scan_from (grid : Grid) (c : nat) (line : list NonogramCell) :
  JS.len line = JS.len grid ->
  forall rows index st,
    Forall (fun row : list NonogramCell => is_Some (row !! c)) rows ->
    JS.forEachE_from (colCallback grid (Z.of_nat c)) index rows st
    = Some (JS.forEach_from (rowCallback line) index (columnOf rows c) st).
Proof.
  intros Hlen rows. induction rows as [|row rows IH]; intros index st Hall.
  - reflexivity.
  - inversion Hall as [|? ? [cell Hc] Hall']; subst.
    rewrite (columnOf_cons _ _ _ _ Hc). cbn [JS.forEachE_from JS.forEach_from].
    assert (colCallback grid (Z.of_nat c) row index st
            = Some (rowCallback line cell index st)) as ->.
    { unfold colCallback, rowCallback. destruct st as [numbers currentCount].
      rewrite get_of_nat, Hc, Hlen. reflexivity. }
    by apply IH.
Qed.

(** A row too short for the column raises. *)
Lemma col_scan_short (grid : Grid) (c : nat) :
  forall rows index st,
    Exists (fun row : list NonogramCell => row !! c = None) rows ->
    JS.forEachE_from (colCallback grid (Z.of_nat c)) index rows st = None.
Proof.
  intros rows. induction rows as [|row rows IH]; intros index st Hex.
  - inversion Hex.
  - cbn [JS.forEachE_from]. unfold colCallback at 1. destruct st as [numbers currentCount].
    rewrite get_of_nat. destruct (row !! c) as [cell|] eqn:Hc; [|reflexivity].
    apply IH. inversion Hex; subst; [congruence|assumption].
Qed.

Lemma colNumbersOf_column (grid : Grid) (c : nat) (v : Z) :
  Forall (fun row : list NonogramCell => is_Some (row !! c)) grid ->
  colNumbersOf grid v (Z.of_nat c) = Some (rowNumbersOf (columnOf grid c)).
Proof.
  intros Hall. unfold colNumbersOf, rowNumbersOf, JS.forEachE, JS.forEach.
  rewrite (col_scan_from grid c (columnOf grid c)) by
    (unfold JS.len; by rewrite ?columnOf_length).
  by destruct (JS.forEach_from _ _ _ _).
Qed.

Lemma mapE_from_fill {B} (cb : Z -> Z -> option B) (f : nat -> B) (v : Z) :
  forall n i,
    (forall c, (i <= c < i + n)%nat -> cb v (Z.of_nat c) = Some (f c)) ->
    JS.mapE_from cb (Z.of_nat i) (JS.Array_fill n v) = Some (map f (seq i n)).
Proof.
  induction n as [|n IH]; intros i Hcb; [reflexivity|].
  unfold JS.Array_fill in *. cbn [replicate JS.mapE_from seq map].
  rewrite Hcb by lia.
  replace (Z.of_nat i + 1) with (Z.of_nat (S i)) by lia.
  rewrite IH; [reflexivity|]. intros c Hc. apply Hcb. lia.
Qed.

Lemma rows_reach grid c :
  Forall (fun row : list NonogramCell => (gridWidth grid <= length row)%nat) grid ->
  (c < gridWidth grid)%nat ->
  Forall (fun row : list NonogramCell => is_Some (row !! c)) grid.
Proof.
  intros Hall Hc. eapply Forall_impl; [exact Hall|]. simpl. intros row Hrow.
  apply lookup_lt_is_Some. lia.
Qed.

Lemma wellFormed_Forall grid :
  wellFormed grid -> Forall (fun row : list NonogramCell => length row = gridWidth grid) grid.
Proof. destruct grid as [|first rest]; [done|]. simpl. by constructor. Qed.

Lemma wellFormed_lookup grid c :
  wellFormed grid -> (c < gridWidth grid)%nat ->
  Forall (fun row : list NonogramCell => is_Some (row !! c)) grid.
Proof.
  intros Hwf Hc. apply rows_reach; [|done].
  eapply Forall_impl; [by apply wellFormed_Forall|]. simpl. lia.
Qed.

(** [calculateNumbers] returns on a grid with a first row and no row
    shorter than it, with the row scan of every row and of every column. *)
Lemma calculateNumbers_reach grid :
  grid <> [] ->
  Forall (fun row : list NonogramCell => (gridWidth grid <= length row)%nat) grid ->
  calculateNumbers grid
  = Some (map rowNumbersOf grid,
          map (fun c => rowNumbersOf (columnOf grid c)) (seq 0 (gridWidth grid))).
Proof.
  intros Hne Hall. unfold calculateNumbers, JS.mapE.
  destruct grid as [|first rest] eqn:E; [done|]. rewrite <- E in *.
  assert (JS.get grid 0 = Some first) as -> by (by rewrite E).
  change 0 with (Z.of_nat 0).
  rewrite (mapE_from_fill (colNumbersOf grid)
             (fun c => rowNumbersOf (columnOf grid c))).
  - replace (gridWidth grid) with (length first) by (by rewrite E). reflexivity.
  - intros c Hc. apply colNumbersOf_column, rows_reach; [done|].
    rewrite E. simpl. lia.
Qed.

Lemma calculateNumbers_wellFormed grid :
  wellFormed grid ->
  calculateNumbers grid
  = Some (map rowNumbersOf grid,
          map (fun c => rowNumbersOf (columnOf grid c)) (seq 0 (gridWidth grid))).
Proof.
  intros Hwf. apply calculateNumbers_reach.
  - by destruct grid.
  - eapply Forall_impl; [by apply wellFormed_Forall|]. simpl. lia.
Qed.

Lemma mapE_from_raise {B} (cb : Z -> Z -> option B) (v : Z) :
  forall n i c,
    (i <= c < i + n)%nat -> cb v (Z.of_nat c) = None ->
    JS.mapE_from cb (Z.of_nat i) (JS.Array_fill n v) = None.
Proof.
  induction n as [|n IH]; intros i c Hc Hcb; [lia|].
  unfold JS.Array_fill in *. cbn [replicate JS.mapE_from].
  destruct (decide (c = i)) as [->|Hne].
  - by rewrite Hcb.
  - destruct (cb v (Z.of_nat i)); [|reflexivity].
    replace (Z.of_nat i + 1) with (Z.of_nat (S i)) by lia.
    rewrite (IH (S i) c); [reflexivity|lia|assumption].
Qed.

(** [calculateNumbers] raises exactly on a grid without rows and on a grid
    with a row shorter than the first. *)
Lemma calculateNumbers_None_iff grid :
  calculateNumbers grid = None
  <-> grid = [] \/ Exists (fun row : list NonogramCell => (length row < gridWidth grid)%nat) grid.
Proof.
  split.
  - intros HNone. destruct grid as [|first rest] eqn:E; [by left|]. right.
    rewrite <- E in *.
    destruct (decide (Forall (fun row : list NonogramCell =>
                                (gridWidth grid <= length row)%nat) grid)) as [Hall|Hnot].
    + rewrite calculateNumbers_reach in HNone; [discriminate|by rewrite E|done].
    + apply not_Forall_Exists in Hnot; [|apply _].
      eapply Exists_impl; [exact Hnot|]. simpl. lia.
  - intros [->|Hex]; [reflexivity|].
    destruct grid as [|first rest] eqn:E; [inversion Hex|]. rewrite <- E in *.
    unfold calculateNumbers, JS.mapE.
    assert (JS.get grid 0 = Some first) as -> by (by rewrite E).
    apply Exists_exists in Hex as (row & Hin & Hshort).
    change 0 with (Z.of_nat 0).
    rewrite (mapE_from_raise _ _ _ _ (length row)); [reflexivity| |].
    + rewrite E in Hshort. simpl in Hshort. lia.
    + unfold colNumbersOf, JS.forEachE. rewrite col_scan_short; [reflexivity|].
      apply Exists_exists. exists row. split; [done|].
      by apply lookup_ge_None_2.
Qed.

(** ** Transposition *)

Lemma transposeW_columns w grid :
  Forall (fun row : list NonogramCell => length row = w) grid ->
  transposeW w grid = map (columnOf grid) (seq 0 w).
Proof.
  induction 1 as [|row rest Hrow _ IH].
  - simpl. apply list_eq. intros i.
    change (map ?f ?l) with (f <$> l).
    rewrite list_lookup_fmap.
    destruct (decide (i < w)%nat) as [Hi|Hi].
    + rewrite lookup_seq_lt by done. simpl.
      by rewrite lookup_replicate_2.
    + rewrite lookup_seq_ge by lia. simpl.
      apply lookup_replicate_None. lia.
  - cbn [transposeW]. rewrite IH. apply list_eq. intros i.
    change (map ?f ?l) with (f <$> l).
    rewrite lookup_zip_with, !list_lookup_fmap.
    destruct (decide (i < w)%nat) as [Hi|Hi].
    + rewrite lookup_seq_lt by done. simpl.
      destruct (lookup_lt_is_Some_2 row i) as [cell Hc]; [lia|].
      rewrite Hc. unfold columnOf. simpl. reflexivity.
    + rewrite lookup_seq_ge by lia. simpl.
      rewrite lookup_ge_None_2 by lia. reflexivity.
Qed.


Lemma wellFormed_row_length grid y row :
  wellFormed grid -> grid !! y = Some row -> length row = gridWidth grid.
Proof.
  intros Hwf Hrow. apply wellFormed_Forall in Hwf.
  rewrite Forall_forall in Hwf. apply Hwf.
  by eapply list_elem_of_lookup_2.
Qed.

Lemma columnOf_lookup_all (rws : Grid) c y :
  Forall (fun row : list NonogramCell => is_Some (row !! c)) rws ->
  columnOf rws c !! y = rws !! y ≫= (fun row : list NonogramCell => row !! c).
Proof.
  intros Hall. revert y.
  induction Hall as [|r rest [x Hx] _ IH]; intros y; [done|].
  rewrite (columnOf_cons _ _ _ _ Hx). destruct y as [|y]; simpl.
  - by rewrite Hx.
  - apply IH.
Qed.

Lemma columnOf_lookup grid c y row cell :
  wellFormed grid -> grid !! y = Some row -> row !! c = Some cell ->
  columnOf grid c !! y = Some cell.
Proof.
  intros Hwf Hrow Hcell. rewrite columnOf_lookup_all.
  - rewrite Hrow. exact Hcell.
  - apply wellFormed_lookup; [done|].
    rewrite <- (wellFormed_row_length grid y row) by done.
    by apply lookup_lt_Some in Hcell.
Qed.

(** The entry of the transpose at row [c], column [y] is the entry of the
    grid at row [y], column [c]. *)
Lemma transpose_lookup grid c y row cell :
  wellFormed grid -> grid !! y = Some row -> row !! c = Some cell ->
  exists col, transpose grid !! c = Some col /\ col !! y = Some cell.
Proof.
  intros Hwf Hrow Hcell. exists (columnOf grid c). split.
  - unfold transpose. rewrite transposeW_columns by (by apply wellFormed_Forall).
    change (map ?f ?l) with (f <$> l). rewrite list_lookup_fmap.
    rewrite lookup_seq_lt; [done|].
    rewrite <- (wellFormed_row_length grid y row) by done.
    by apply lookup_lt_Some in Hcell.
  - by eapply columnOf_lookup.
Qed.

(** A property of every line's scan holds of every row and column clue. *)
Lemma calculateNumbers_eachLine (P : list NonogramCell -> list Z -> Prop) grid :
  (forall line, P line (rowNumbersOf line)) ->
  wellFormed grid ->
  exists rowNums colNums,
    calculateNumbers grid = Some (rowNums, colNums) /\
    eachLine P grid rowNums colNums.
Proof.
  intros HP Hwf. eexists _, _. split; [by apply calculateNumbers_wellFormed|].
  split.
  - intros y row Hrow. exists (rowNumbersOf row). split; [|apply HP].
    change (map ?f ?l) with (f <$> l). by rewrite list_lookup_fmap, Hrow.
  - intros c Hc. exists (rowNumbersOf (columnOf grid c)). split; [|split].
    + change (map ?f ?l) with (f <$> l).
      by rewrite list_lookup_fmap, lookup_seq_lt.
    + by apply columnOf_length, wellFormed_lookup.
    + apply HP.
Qed.

(** ** The clues of one line *)

Lemma orZero_runs rs :
  orZero rs = match rs with [] => [0] | _ => rs end.
Proof. by destruct rs. Qed.

Lemma line_sum line : clueSum (rowNumbersOf line) = filledCount line.
Proof.
  rewrite rowNumbersOf_runs, orZero_runs. unfold filledCount.
  rewrite <- clueSum_maximalRuns.
  by destruct (maximalRuns (pattern line)).
Qed.

Lemma pattern_unfilled line :
  Forall (fun b => b = false) (pattern line)
  <-> Forall (fun cell => filled cell = false) line.
Proof. unfold pattern. by rewrite Forall_map. Qed.

Lemma line_unfilled line :
  Forall (fun cell => filled cell = false) line -> rowNumbersOf line = [0].
Proof.
  intros H. apply pattern_unfilled, maximalRuns_nil_iff in H.
  by rewrite rowNumbersOf_runs, H.
Qed.

Lemma line_filled line :
  Exists (fun cell => filled cell = true) line ->
  rowNumbersOf line = maximalRuns (pattern line).
Proof.
  intros Hex. rewrite rowNumbersOf_runs, orZero_runs.
  destruct (maximalRuns (pattern line)) eqn:E; [|reflexivity].
  apply maximalRuns_nil_iff, pattern_unfilled in E.
  rewrite Forall_forall in E. apply Exists_exists in Hex as (cell & Hin & Hf).
  rewrite E in Hf by done. discriminate.
Qed.

Lemma line_nonempty line : rowNumbersOf line <> [].
Proof.
  rewrite rowNumbersOf_runs, orZero_runs.
  by destruct (maximalRuns (pattern line)).
Qed.

Lemma line_fit line :
  Exists (fun cell => filled cell = true) line ->
  clueSum (rowNumbersOf line) + (JS.len (rowNumbersOf line) - 1) <= JS.len line.
Proof.
  intros Hex. rewrite (line_filled _ Hex).
  pose proof (maximalRuns_fit (pattern line)) as H.
  assert (JS.len (pattern line) = JS.len line) as Hl
    by (unfold JS.len, pattern; by rewrite length_map).
  rewrite Hl in H. destruct (pattern line) as [|[] t]; lia.
Qed.

(** ** The clue deriver: the clues of a well-formed grid *)

(** Scenario D: an all-filled row of length 4. *)
Example scenario_D : rowNumbersOf (map mk [true; true; true; true]) = [4].
Proof. reflexivity. Qed.

Example sampleGrid_clues :
  calculateNumbers sampleGrid
  = Some ([[2; 1]; [1]; [4]], [[1; 1]; [3]; [1]; [1; 1]]).
Proof. reflexivity. Qed.

(** C1, as stated, fails on a row without a filled cell: its list of
    maximal runs is empty and its clue sequence is [[0]]. *)
Lemma unfilled_row_counterexample :
  wellFormed [[mk false]] /\
  calculateNumbers [[mk false]] = Some ([[0]], [[0]]) /\
  RunsOf (pattern [mk false]) [] /\
  ~ (forall grid, wellFormed grid ->
       exists rowNums colNums,
         calculateNumbers grid = Some (rowNums, colNums) /\
         forall y row, grid !! y = Some row ->
           exists runs, RunsOf (pattern row) runs /\ rowNums !! y = Some runs).
Proof.
  split; [constructor|]. split; [reflexivity|]. split; [repeat constructor|].
  intros H. destruct (H [[mk false]]) as (rowNums & colNums & Hcalc & Hrows).
  { constructor. }
  injection Hcalc as <- <-.
  destruct (Hrows 0%nat [mk false] eq_refl) as (runs & Hruns & Hclue).
  apply RunsOf_maximalRuns in Hruns. subst runs. discriminate.
Qed.

(** C1 (amended): on a non-empty rectangular grid the clue sequence of
    every row that has a filled cell is the ordered list of the lengths of
    its maximal runs of filled cells, read left to right; a row of [n >= 1]
    filled cells and nothing else yields exactly [[n]], its run being
    appended at the final cell.  A row without a filled cell, whose list of
    runs is empty, yields [[0]]. *)
Theorem row_clues_maximal_runs grid :
  wellFormed grid ->
  exists rowNums colNums,
    calculateNumbers grid = Some (rowNums, colNums) /\
    forall y row, grid !! y = Some row ->
      exists runs,
        RunsOf (pattern row) runs /\
        (Exists (fun cell => filled cell = true) row -> rowNums !! y = Some runs) /\
        (Forall (fun cell => filled cell = false) row ->
         runs = [] /\ rowNums !! y = Some [0]) /\
        (forall n, pattern row = replicate (S n) true ->
         rowNums !! y = Some [Z.of_nat (S n)]).
Proof.
  intros Hwf. eexists _, _. split; [by apply calculateNumbers_wellFormed|].
  intros y row Hrow.
  assert (map rowNumbersOf grid !! y = Some (rowNumbersOf row)) as ->.
  { change (map ?f ?l) with (f <$> l). by rewrite list_lookup_fmap, Hrow. }
  exists (maximalRuns (pattern row)). split; [apply maximalRuns_RunsOf|].
  split; [|split].
  - intros Hex. by rewrite (line_filled _ Hex).
  - intros Hall. split.
    + by apply maximalRuns_nil_iff, pattern_unfilled.
    + by rewrite (line_unfilled _ Hall).
  - intros n Hn. rewrite rowNumbersOf_runs, Hn.
    rewrite <- (app_nil_r (replicate (S n) true)).
    rewrite maximalRuns_block by (by left). reflexivity.
Qed.

(** The sample grid, whose last row is all filled. *)
Lemma row_clues_maximal_runs_witness :
  wellFormed sampleGrid /\
  exists rowNums colNums,
    calculateNumbers sampleGrid = Some (rowNums, colNums) /\
    forall y row, sampleGrid !! y = Some row ->
      exists runs,
        RunsOf (pattern row) runs /\
        (Exists (fun cell => filled cell = true) row -> rowNums !! y = Some runs) /\
        (Forall (fun cell => filled cell = false) row ->
         runs = [] /\ rowNums !! y = Some [0]) /\
        (forall n, pattern row = replicate (S n) true ->
         rowNums !! y = Some [Z.of_nat (S n)]).
Proof.
  split; [repeat constructor|].
  apply (row_clues_maximal_runs sampleGrid). repeat constructor.
Defined.

(** C2: on a non-empty rectangular grid the sum of every row's clue
    sequence is the number of filled cells of the row, and the sum of every
    column's clue sequence is the number of filled cells of the column; the
    sequence [[0]] sums to 0. *)
Theorem clue_sums grid :
  wellFormed grid ->
  exists rowNums colNums,
    calculateNumbers grid = Some (rowNums, colNums) /\
    eachLine (fun line numbers => clueSum numbers = filledCount line)
      grid rowNums colNums.
Proof. apply calculateNumbers_eachLine. apply line_sum. Qed.

(** The sample grid: its row sums are 3, 1 and 4. *)
Lemma clue_sums_witness :
  wellFormed sampleGrid /\
  exists rowNums colNums,
    calculateNumbers sampleGrid = Some (rowNums, colNums) /\
    eachLine (fun line numbers => clueSum numbers = filledCount line)
      sampleGrid rowNums colNums.
Proof.
  split; [repeat constructor|].
  apply (clue_sums sampleGrid). repeat constructor.
Defined.

(** C3: on a non-empty rectangular grid the clue deriver returns one clue
    sequence per row and one per column and nothing else, and every clue
    sequence it returns has at least one element; a line without a filled
    cell yields exactly [[0]]; a line with a filled cell yields positive
    integers only. *)
Theorem clues_nonempty grid :
  wellFormed grid ->
  exists rowNums colNums,
    calculateNumbers grid = Some (rowNums, colNums) /\
    length rowNums = length grid /\
    length colNums = gridWidth grid /\
    Forall (fun numbers => numbers <> []) rowNums /\
    Forall (fun numbers => numbers <> []) colNums /\
    eachLine (fun line numbers =>
                numbers <> [] /\
                (Forall (fun cell => filled cell = false) line -> numbers = [0]) /\
                (Exists (fun cell => filled cell = true) line ->
                 Forall (fun n => 0 < n) numbers))
      grid rowNums colNums.
Proof.
  intros Hwf.
  destruct (calculateNumbers_eachLine
              (fun line numbers =>
                 numbers <> [] /\
                 (Forall (fun cell => filled cell = false) line -> numbers = [0]) /\
                 (Exists (fun cell => filled cell = true) line ->
                  Forall (fun n => 0 < n) numbers)) grid)
    as (rowNums & colNums & Hcalc & Hlines); [|exact Hwf|].
  - intros line. split; [|split].
    + apply line_nonempty.
    + apply line_unfilled.
    + intros Hex. rewrite (line_filled _ Hex). apply maximalRuns_pos.
  - exists rowNums, colNums. split; [exact Hcalc|].
    rewrite calculateNumbers_wellFormed in Hcalc by done.
    injection Hcalc as <- <-.
    split; [by rewrite length_map|]. split; [by rewrite length_map, length_seq|].
    split; [|split; [|exact Hlines]].
    + apply Forall_map, Forall_forall. intros row _. apply line_nonempty.
    + apply Forall_map, Forall_forall. intros c _. apply line_nonempty.
Qed.

(** The sample grid. *)
Lemma clues_nonempty_witness :
  wellFormed sampleGrid /\
  exists rowNums colNums,
    calculateNumbers sampleGrid = Some (rowNums, colNums) /\
    length rowNums = length sampleGrid /\
    length colNums = gridWidth sampleGrid /\
    Forall (fun numbers => numbers <> []) rowNums /\
    Forall (fun numbers => numbers <> []) colNums /\
    eachLine (fun line numbers =>
                numbers <> [] /\
                (Forall (fun cell => filled cell = false) line -> numbers = [0]) /\
                (Exists (fun cell => filled cell = true) line ->
                 Forall (fun n => 0 < n) numbers))
      sampleGrid rowNums colNums.
Proof.
  split; [repeat constructor|].
  apply (clues_nonempty sampleGrid). repeat constructor.
Defined.

(** C10: on a non-empty rectangular grid every row or column with a filled
    cell has a clue sequence whose runs, with one cell between consecutive
    runs, fit in the line: sum + (length - 1) <= n, for a line of n cells. *)
Theorem runs_and_gaps_fit grid :
  wellFormed grid ->
  exists rowNums colNums,
    calculateNumbers grid = Some (rowNums, colNums) /\
    eachLine (fun line numbers =>
                Exists (fun cell => filled cell = true) line ->
                clueSum numbers + (JS.len numbers - 1) <= JS.len line)
      grid rowNums colNums.
Proof. apply calculateNumbers_eachLine. apply line_fit. Qed.

(** The sample grid: the first row, [2; 1], fills its four cells. *)
Lemma runs_and_gaps_fit_witness :
  wellFormed sampleGrid /\
  exists rowNums colNums,
    calculateNumbers sampleGrid = Some (rowNums, colNums) /\
    eachLine (fun line numbers =>
                Exists (fun cell => filled cell = true) line ->
                clueSum numbers + (JS.len numbers - 1) <= JS.len line)
      sampleGrid rowNums colNums.
Proof.
  split; [repeat constructor|].
  apply (runs_and_gaps_fit sampleGrid). repeat constructor.
Defined.

(** C9: on a non-empty rectangular grid every access of the clue deriver
    is in bounds, [grid[0]] and every [row[colIndex]] included: no
    [TypeError] is raised and the derivation returns one clue sequence per
    row and one per column. *)
Theorem derivation_total grid :
  wellFormed grid ->
  exists rowNums colNums,
    calculateNumbers grid = Some (rowNums, colNums) /\
    length rowNums = length grid /\
    length colNums = gridWidth grid.
Proof.
  intros Hwf. eexists _, _. split; [by apply calculateNumbers_wellFormed|].
  by rewrite !length_map, length_seq.
Qed.

(** The sample grid: three row clues and four column clues. *)
Lemma derivation_total_witness :
  wellFormed sampleGrid /\
  exists rowNums colNums,
    calculateNumbers sampleGrid = Some (rowNums, colNums) /\
    length rowNums = length sampleGrid /\
    length colNums = gridWidth sampleGrid.
Proof.
  split; [repeat constructor|].
  apply (derivation_total sampleGrid). repeat constructor.
Defined.

(** ** Columns as rows of the transpose *)

Lemma transpose_columns grid :
  wellFormed grid ->
  transpose grid = map (columnOf grid) (seq 0 (gridWidth grid)).
Proof. intros Hwf. unfold transpose. by apply transposeW_columns, wellFormed_Forall. Qed.

Lemma transpose_wellFormed grid :
  wellFormed grid -> (0 < gridWidth grid)%nat -> wellFormed (transpose grid).
Proof.
  intros Hwf Hw. rewrite transpose_columns by done.
  destruct (gridWidth grid) as [|w] eqn:E; [lia|].
  cbn [seq map wellFormed]. apply Forall_map, Forall_forall.
  intros c Hc. apply elem_of_seq in Hc.
  rewrite !columnOf_length; [done| |]; apply wellFormed_lookup; (done || lia).
Qed.

Lemma transpose_width grid :
  wellFormed grid -> (0 < gridWidth grid)%nat ->
  gridWidth (transpose grid) = length grid.
Proof.
  intros Hwf Hw. rewrite transpose_columns by done.
  destruct (gridWidth grid) as [|w] eqn:E; [lia|].
  cbn [seq map gridWidth]. apply columnOf_length, wellFormed_lookup; (done || lia).
Qed.

(** The columns of the transpose are the rows of the grid. *)
Lemma transpose_column grid y row :
  wellFormed grid -> grid !! y = Some row ->
  columnOf (transpose grid) y = row.
Proof.
  intros Hwf Hrow. rewrite transpose_columns by done.
  pose proof (wellFormed_row_length grid y row Hwf Hrow) as Hlen.
  assert (Forall (fun col : list NonogramCell => is_Some (col !! y))
            (map (columnOf grid) (seq 0 (gridWidth grid)))) as Hall.
  { apply Forall_map, Forall_forall. intros c Hc. apply elem_of_seq in Hc. simpl.
    apply lookup_lt_is_Some. rewrite columnOf_length by (apply wellFormed_lookup; (done || lia)).
    by apply lookup_lt_Some in Hrow. }
  apply list_eq. intros c. rewrite (columnOf_lookup_all _ y c Hall).
  change (map ?f ?l) with (f <$> l). rewrite list_lookup_fmap.
  destruct (decide (c < gridWidth grid)%nat) as [Hc|Hc].
  - rewrite lookup_seq_lt by done. simpl.
    rewrite columnOf_lookup_all by (by apply wellFormed_lookup).
    by rewrite Hrow.
  - rewrite lookup_seq_ge by lia. simpl. symmetry. apply lookup_ge_None_2. lia.
Qed.

(** C7: on a non-empty rectangular grid the column clue sequences are the
    row clue sequences of the transposed grid; when the grid has a column,
    [calculateNumbers] derives for the transpose the column clues of the
    grid as row clues and its row clues as column clues. *)
Theorem column_clues_transpose grid :
  wellFormed grid ->
  exists rowNums colNums,
    calculateNumbers grid = Some (rowNums, colNums) /\
    colNums = map rowNumbersOf (transpose grid) /\
    ((0 < gridWidth grid)%nat ->
     calculateNumbers (transpose grid) = Some (colNums, rowNums)).
Proof.
  intros Hwf. eexists _, _. split; [by apply calculateNumbers_wellFormed|].
  assert (map (fun c => rowNumbersOf (columnOf grid c)) (seq 0 (gridWidth grid))
          = map rowNumbersOf (transpose grid)) as Heq.
  { rewrite transpose_columns by done. by rewrite map_map. }
  split; [exact Heq|]. intros Hw.
  rewrite (calculateNumbers_wellFormed (transpose grid))
    by (by apply transpose_wellFormed).
  rewrite Heq, transpose_width by done. do 2 f_equal.
  apply list_eq. intros y. change (map ?f ?l) with (f <$> l).
  rewrite !list_lookup_fmap.
  destruct (grid !! y) as [row|] eqn:Hrow.
  - rewrite lookup_seq_lt by (by apply lookup_lt_Some in Hrow). simpl.
    by rewrite (transpose_column grid y row).
  - rewrite lookup_seq_ge; [done|]. by apply lookup_ge_None in Hrow.
Qed.

(** The sample grid and its transpose of four rows. *)
Lemma column_clues_transpose_witness :
  wellFormed sampleGrid /\
  exists rowNums colNums,
    calculateNumbers sampleGrid = Some (rowNums, colNums) /\
    colNums = map rowNumbersOf (transpose sampleGrid) /\
    ((0 < gridWidth sampleGrid)%nat ->
     calculateNumbers (transpose sampleGrid) = Some (colNums, rowNums)).
Proof.
  split; [repeat constructor|].
  apply (column_clues_transpose sampleGrid). repeat constructor.
Defined.

(** ** The clues do not read the colours *)

Lemma pattern_lookup row1 row2 c :
  pattern row1 = pattern row2 ->
  filled <$> JS.get row1 c = filled <$> JS.get row2 c.
Proof.
  intros Hp. unfold JS.get. destruct (c <? 0); [reflexivity|].
  unfold pattern in Hp. change (map ?f ?l) with (f <$> l) in Hp.
  by rewrite <- !list_lookup_fmap, Hp.
Qed.

Lemma colCallback_pattern g1 g2 c row1 row2 index st :
  JS.len g1 = JS.len g2 -> pattern row1 = pattern row2 ->
  colCallback g1 c row1 index st = colCallback g2 c row2 index st.
Proof.
  intros Hlen Hp. unfold colCallback. destruct st as [numbers currentCount].
  pose proof (pattern_lookup row1 row2 c Hp) as Hc.
  destruct (JS.get row1 c) as [c1|], (JS.get row2 c) as [c2|]; try discriminate.
  - injection Hc as ->. by rewrite Hlen.
  - reflexivity.
Qed.

Lemma col_scan_pattern g1 g2 c :
  JS.len g1 = JS.len g2 ->
  forall rows1 rows2 index st,
    map pattern rows1 = map pattern rows2 ->
    JS.forEachE_from (colCallback g1 c) index rows1 st
    = JS.forEachE_from (colCallback g2 c) index rows2 st.
Proof.
  intros Hlen rows1. induction rows1 as [|row1 rows1 IH];
    intros [|row2 rows2] index st Hp; try discriminate; [reflexivity|].
  injection Hp as Hrow Hrest. cbn [JS.forEachE_from].
  rewrite (colCallback_pattern g1 g2 c row1 row2) by done.
  destruct (colCallback g2 c row2 index st); [by apply IH|reflexivity].
Qed.

Lemma mapE_from_ext {A B} (cb1 cb2 : A -> Z -> option B) :
  (forall x i, cb1 x i = cb2 x i) ->
  forall arr index, JS.mapE_from cb1 index arr = JS.mapE_from cb2 index arr.
Proof.
  intros Hcb arr. induction arr as [|x arr IH]; intros index; [reflexivity|].
  cbn [JS.mapE_from]. by rewrite Hcb, IH.
Qed.

Lemma sameFilled_patterns g1 g2 :
  sameFilled g1 g2 <-> map pattern g1 = map pattern g2.
Proof.
  unfold sameFilled, pattern. change (map ?f ?l) with (f <$> l).
  rewrite list_eq_Forall2, Forall2_fmap.
  split; intros H; (eapply Forall2_impl; [exact H|]); intros row1 row2;
    simpl; change (map ?f ?l) with (f <$> l);
    by rewrite list_eq_Forall2, Forall2_fmap.
Qed.

(** C8: two grids that agree on every cell's [filled] field, whatever the
    colours, have the same row clues and the same column clues (and raise
    on the same grids). *)
Theorem clues_ignore_colour g1 g2 :
  sameFilled g1 g2 -> calculateNumbers g1 = calculateNumbers g2.
Proof.
  intros Hp. apply sameFilled_patterns in Hp. unfold calculateNumbers.
  assert (map rowNumbersOf g1 = map rowNumbersOf g2) as ->.
  { transitivity (map (fun l => orZero (maximalRuns l)) (map pattern g1)).
    - rewrite map_map. apply map_ext. intros row. apply rowNumbersOf_runs.
    - rewrite Hp, map_map. apply map_ext. intros row. symmetry. apply rowNumbersOf_runs. }
  assert (JS.len g1 = JS.len g2) as Hlen.
  { unfold JS.len. by rewrite <- (length_map pattern g1), Hp, length_map. }
  destruct g1 as [|first1 rest1], g2 as [|first2 rest2]; try discriminate; [reflexivity|].
  change (JS.get (first1 :: rest1) 0) with (Some first1).
  change (JS.get (first2 :: rest2) 0) with (Some first2). cbv beta iota.
  assert (length first1 = length first2) as ->.
  { injection Hp as Hfirst _. by rewrite <- (length_map filled first1), <- (length_map filled first2);
      unfold pattern in Hfirst; rewrite Hfirst. }
  unfold JS.mapE.
  rewrite (mapE_from_ext (colNumbersOf (first1 :: rest1)) (colNumbersOf (first2 :: rest2))).
  - reflexivity.
  - intros v c. unfold colNumbersOf, JS.forEachE.
    by rewrite (col_scan_pattern _ (first2 :: rest2) c Hlen _ (first2 :: rest2)).
Qed.

(** The sample grid and the same cells in another colour. *)
Lemma clues_ignore_colour_witness :
  sameFilled sampleGrid (map (map recolour) sampleGrid) /\
  calculateNumbers sampleGrid = calculateNumbers (map (map recolour) sampleGrid).
Proof.
  split; [repeat constructor|].
  apply (clues_ignore_colour sampleGrid (map (map recolour) sampleGrid)).
  repeat constructor.
Defined.

(** ** The grid quantizer: the shape of the grid *)

Lemma for_from_push {A} (f : Z -> A) :
  forall fuel i hi acc,
    hi - i <= Z.of_nat fuel ->
    JS.for_from fuel i hi (fun y acc => acc ++ [f y]) acc
    = acc ++ map f (seqZ i (hi - i)).
Proof.
  induction fuel as [|fuel IH]; intros i hi acc Hfuel.
  - simpl. rewrite seqZ_nil by lia. by rewrite app_nil_r.
  - cbn [JS.for_from]. destruct (Z.ltb_spec i hi) as [Hlt|Hge].
    + rewrite IH by lia. rewrite (seqZ_cons i) by lia.
      replace (Z.succ i) with (i + 1) by lia.
      replace (Z.pred (hi - i)) with (hi - (i + 1)) by lia.
      by rewrite <- app_assoc.
    + rewrite seqZ_nil by lia. by rewrite app_nil_r.
Qed.

Lemma for_upto_push {A} (f : Z -> A) hi :
  JS.for_upto hi (fun y acc => acc ++ [f y]) [] = map f (seqZ 0 hi).
Proof.
  unfold JS.for_upto. rewrite for_from_push by lia.
  by replace (hi - 0) with hi by lia.
Qed.

Lemma buildRow_map data columns y :
  buildRow data columns y
  = map (fun x => cellAt data ((y * columns + x) * 4)) (seqZ 0 columns).
Proof. unfold buildRow. apply (for_upto_push (fun x => cellAt data ((y * columns + x) * 4))). Qed.

Lemma buildGrid_map data columns rows :
  buildGrid data columns rows = map (buildRow data columns) (seqZ 0 rows).
Proof. unfold buildGrid. apply (for_upto_push (buildRow data columns)). Qed.

Lemma get_map_seqZ {A} (f : Z -> A) n i :
  0 <= i < n -> JS.get (map f (seqZ 0 n)) i = Some (f i).
Proof.
  intros Hi. unfold JS.get. destruct (Z.ltb_spec i 0); [lia|].
  change (map ?g ?l) with (g <$> l).
  rewrite list_lookup_fmap, lookup_seqZ_lt by lia. simpl.
  f_equal. f_equal. lia.
Qed.

Lemma len_map_seqZ {A} (f : Z -> A) n : 0 <= n -> JS.len (map f (seqZ 0 n)) = n.
Proof. intros Hn. unfold JS.len. rewrite length_map, length_seqZ. lia. Qed.

(** The loops build [rows] rows of [columns] cells, cell [x] of row [y]
    from the four bytes at [(y * columns + x) * 4]. *)
Lemma buildGrid_shape data columns rows :
  0 <= columns -> 0 <= rows ->
  JS.len (buildGrid data columns rows) = rows /\
  Forall (fun row => JS.len row = columns) (buildGrid data columns rows) /\
  forall x y, 0 <= x < columns -> 0 <= y < rows ->
    exists row, JS.get (buildGrid data columns rows) y = Some row /\
                JS.get row x = Some (cellAt data ((y * columns + x) * 4)).
Proof.
  intros Hc Hr. rewrite buildGrid_map. split; [|split].
  - by apply len_map_seqZ.
  - apply Forall_map, Forall_forall. intros y _. simpl.
    rewrite buildRow_map. by apply len_map_seqZ.
  - intros x y Hx Hy. exists (buildRow data columns y). split.
    + by apply get_map_seqZ.
    + rewrite buildRow_map.
      by apply (get_map_seqZ (fun x => cellAt data ((y * columns + x) * 4))).
Qed.

Lemma buildGrid_wellFormed data columns rows :
  0 <= columns -> 0 < rows -> wellFormed (buildGrid data columns rows).
Proof.
  intros Hc Hr.
  destruct (buildGrid_shape data columns rows) as (Hlen & Hrows & _); [lia|lia|].
  destruct (buildGrid data columns rows) as [|first rest].
  - unfold JS.len in Hlen. simpl in Hlen. lia.
  - simpl. inversion Hrows as [|? ? Hfirst Hrest]; subst.
    eapply Forall_impl; [exact Hrest|]. simpl. unfold JS.len in *. lia.
Qed.

(** C4: for [columns] and [rows] in [5, 50] and whatever the canvas holds,
    the quantizer hands on a grid of exactly [rows] rows of exactly
    [columns] cells each, in row-major order: cell [x] of row [y] is the
    cell of pixel [y * columns + x].  The grid is non-empty and
    rectangular, so the clue derivation that follows returns. *)
Theorem quantize_dimensions data columns rows :
  5 <= columns <= 50 -> 5 <= rows <= 50 ->
  exists grid clues,
    generateNonogram data columns rows = (grid, Some clues) /\
    JS.len grid = rows /\
    Forall (fun row => JS.len row = columns) grid /\
    wellFormed grid /\
    forall x y, 0 <= x < columns -> 0 <= y < rows ->
      exists row, JS.get grid y = Some row /\
                  JS.get row x = Some (cellAt data ((y * columns + x) * 4)).
Proof.
  intros Hc Hr. unfold generateNonogram.
  assert (wellFormed (buildGrid data columns rows)) as Hwf
    by (apply buildGrid_wellFormed; lia).
  rewrite (calculateNumbers_wellFormed _ Hwf).
  eexists _, _. split; [reflexivity|].
  destruct (buildGrid_shape data columns rows) as (Hlen & Hrows & Hcells); [lia|lia|].
  auto.
Qed.

(** A black canvas of 6 x 5 pixels. *)
Lemma quantize_dimensions_witness :
  5 <= 6 <= 50 /\ 5 <= 5 <= 50 /\
  exists grid clues,
    generateNonogram (uniformData 30 0 0 0) 6 5 = (grid, Some clues) /\
    JS.len grid = 5 /\
    Forall (fun row => JS.len row = 6) grid /\
    wellFormed grid /\
    forall x y, 0 <= x < 6 -> 0 <= y < 5 ->
      exists row, JS.get grid y = Some row /\
                  JS.get row x = Some (cellAt (uniformData 30 0 0 0) ((y * 6 + x) * 4)).
Proof.
  split; [lia|]. split; [lia|].
  apply (quantize_dimensions (uniformData 30 0 0 0) 6 5); lia.
Defined.

(** ** The grid quantizer: brightness and threshold *)

Lemma allBelow_spec n p z :
  allBelow n p = true -> 0 <= z < Z.of_nat n -> p z = true.
Proof.
  induction n as [|n IH]; intros Hall Hz; [lia|].
  simpl in Hall. apply andb_prop in Hall as [Hn Hrest].
  destruct (decide (z = Z.of_nat n)) as [->|Hne]; [exact Hn|].
  apply IH; [exact Hrest|lia].
Qed.

(** The double additions of line 109 are exact: a sum of bytes is far
    below 2^53. *)
Lemma add_bytes_exact r g :
  0 <= r < 256 -> 0 <= g < 256 ->
  PrimFloat.add (toNumber r) (toNumber g) = toNumber (r + g).
Proof.
  intros Hr Hg. apply Leibniz.eqb_spec.
  assert (allBelow 256 (fun r => allBelow 256 (fun g =>
            Leibniz.eqb (PrimFloat.add (toNumber r) (toNumber g)) (toNumber (r + g))))
          = true) as Hall by (vm_compute; reflexivity).
  apply (allBelow_spec _ _ r) in Hall; [|lia].
  apply (allBelow_spec _ _ g) in Hall; [exact Hall|lia].
Qed.

Lemma add_third_exact s b :
  0 <= s < 511 -> 0 <= b < 256 ->
  PrimFloat.add (toNumber s) (toNumber b) = toNumber (s + b).
Proof.
  intros Hs Hb. apply Leibniz.eqb_spec.
  assert (allBelow 511 (fun s => allBelow 256 (fun b =>
            Leibniz.eqb (PrimFloat.add (toNumber s) (toNumber b)) (toNumber (s + b))))
          = true) as Hall by (vm_compute; reflexivity).
  apply (allBelow_spec _ _ s) in Hall; [|lia].
  apply (allBelow_spec _ _ b) in Hall; [exact Hall|lia].
Qed.

(** The rounding of the division by 3 never crosses the threshold. *)
Lemma threshold_exact s :
  0 <= s < 766 ->
  PrimFloat.ltb (PrimFloat.div (toNumber s) 3%float) 128%float = (s <? 384).
Proof.
  intros Hs.
  assert (allBelow 766 (fun s =>
            Bool.eqb (PrimFloat.ltb (PrimFloat.div (toNumber s) 3%float) 128%float)
                     (s <? 384)) = true) as Hall by (vm_compute; reflexivity).
  apply (allBelow_spec _ _ s) in Hall; [|lia].
  by apply Bool.eqb_prop in Hall.
Qed.

Lemma average_below_128 s : (inject_Z s / 3 < 128)%Q <-> s < 384.
Proof. unfold Qlt, Qdiv, Qmult, Qinv, inject_Z. simpl. lia. Qed.

Lemma brightnessAt_bytes data i r g b :
  JS.get data i = Some r -> JS.get data (i + 1) = Some g -> JS.get data (i + 2) = Some b ->
  0 <= r < 256 -> 0 <= g < 256 -> 0 <= b < 256 ->
  brightnessAt data i = PrimFloat.div (toNumber (r + g + b)) 3%float.
Proof.
  intros Hr Hg Hb Rr Rg Rb. unfold brightnessAt, readNumber.
  rewrite Hr, Hg, Hb.
  by rewrite add_bytes_exact, add_third_exact by lia.
Qed.

(** C5: the cell of every pixel of the grid has its brightness computed as
    the unweighted average of the three colour bytes, the double nearest to
    (red + green + blue) / 3, and is filled exactly when that average is
    strictly below 128; a cell of brightness exactly 128 is not filled. *)
Theorem filled_iff_brightness_below_128 data columns rows x y r g b :
  0 <= x < columns -> 0 <= y < rows ->
  JS.get data ((y * columns + x) * 4) = Some r ->
  JS.get data ((y * columns + x) * 4 + 1) = Some g ->
  JS.get data ((y * columns + x) * 4 + 2) = Some b ->
  0 <= r < 256 -> 0 <= g < 256 -> 0 <= b < 256 ->
  exists row cell,
    JS.get (buildGrid data columns rows) y = Some row /\
    JS.get row x = Some cell /\
    let brightness := brightnessAt data ((y * columns + x) * 4) in
    brightness = PrimFloat.div (toNumber (r + g + b)) 3%float /\
    filled cell = PrimFloat.ltb brightness 128%float /\
    (filled cell = true <-> (inject_Z (r + g + b) / 3 < 128)%Q) /\
    (brightness = 128%float -> filled cell = false) /\
    (r + g + b = 384 -> brightness = 128%float).
Proof.
  intros Hx Hy Hr Hg Hb Rr Rg Rb.
  destruct (buildGrid_shape data columns rows) as (_ & _ & Hcells); [lia|lia|].
  destruct (Hcells x y Hx Hy) as (row & Hrow & Hcell).
  exists row, (cellAt data ((y * columns + x) * 4)).
  split; [exact Hrow|]. split; [exact Hcell|].
  pose proof (brightnessAt_bytes _ _ _ _ _ Hr Hg Hb Rr Rg Rb) as Hbr.
  cbv zeta. cbn [filled cellAt]. split; [exact Hbr|]. split; [reflexivity|].
  split; [|split].
  - rewrite Hbr, threshold_exact by lia.
    rewrite average_below_128. apply Z.ltb_lt.
  - intros ->. reflexivity.
  - intros Hsum. rewrite Hbr, Hsum. reflexivity.
Qed.

(** A canvas of 6 x 5 pixels of colour (128, 127, 129), whose brightness is
    exactly 128: the cell of pixel (5, 4) is not filled. *)
Lemma filled_iff_brightness_below_128_witness :
  (0 <= 5 < 6 /\ 0 <= 4 < 5) /\
  (JS.get (uniformData 30 128 127 129) ((4 * 6 + 5) * 4) = Some 128 /\
   JS.get (uniformData 30 128 127 129) ((4 * 6 + 5) * 4 + 1) = Some 127 /\
   JS.get (uniformData 30 128 127 129) ((4 * 6 + 5) * 4 + 2) = Some 129) /\
  exists row cell,
    JS.get (buildGrid (uniformData 30 128 127 129) 6 5) 4 = Some row /\
    JS.get row 5 = Some cell /\
    let brightness := brightnessAt (uniformData 30 128 127 129) ((4 * 6 + 5) * 4) in
    brightness = PrimFloat.div (toNumber (128 + 127 + 129)) 3%float /\
    filled cell = PrimFloat.ltb brightness 128%float /\
    (filled cell = true <-> (inject_Z (128 + 127 + 129) / 3 < 128)%Q) /\
    (brightness = 128%float -> filled cell = false) /\
    (128 + 127 + 129 = 384 -> brightness = 128%float).
Proof.
  split; [lia|]. split; [repeat split; reflexivity|].
  apply (filled_iff_brightness_below_128 (uniformData 30 128 127 129) 6 5 5 4 128 127 129);
    (lia || reflexivity).
Defined.

(** ** Scenarios A and B: a uniform canvas of 5 x 5 pixels *)

Example scenario_A :
  snd (generateNonogram (uniformData 25 0 0 0) 5 5)
  = Some (replicate 5 [5], replicate 5 [5]).
Proof. vm_compute. reflexivity. Qed.

Example scenario_B :
  snd (generateNonogram (uniformData 25 255 255 255) 5 5)
  = Some (replicate 5 [0], replicate 5 [0]).
Proof. vm_compute. reflexivity. Qed.

Example calculateNumbers_no_rows : calculateNumbers [] = None.
Proof. reflexivity. Qed.

Example calculateNumbers_short_row :
  calculateNumbers [map mk [true; false; true]; map mk [true; true]] = None.
Proof. reflexivity. Qed.

(** ** The [columns] and [rows] state *)

Lemma clamp_inRange value : inRange (clamp value).
Proof. unfold inRange, clamp. lia. Qed.

Lemma handle_columns ev st : inRange (columns st) -> inRange (columns (handle ev st)).
Proof.
  intros Hc. destruct ev as [[value|]|[value|]|img]; simpl; try done.
  - destruct (0 <? value); [apply clamp_inRange|done].
  - by destruct (0 <? value).
Qed.

Lemma effectRuns_columns st st' :
  inRange (columns st') -> Forall (fun d => inRange d.1) (effectRuns st st').
Proof.
  intros Hc. unfold effectRuns. case_bool_decide; [constructor|].
  destruct (image st'); constructor; [exact Hc|constructor].
Qed.

Lemma quantizerRuns_columns ev st :
  inRange (columns st) -> Forall (fun d => inRange d.1) (quantizerRuns ev st).
Proof.
  intros Hc. destruct ev as [parsed|parsed|img].
  - apply effectRuns_columns. by apply handle_columns.
  - apply effectRuns_columns. by apply handle_columns.
  - cbn [quantizerRuns]. rewrite !Forall_app. split; [|split].
    + by apply effectRuns_columns.
    + constructor; [exact Hc|constructor].
    + apply effectRuns_columns. by apply (handle_columns (ImageUpload img)).
Qed.

(** Every path that sets [columns] clamps: whatever the events, the
    quantizer only ever runs with [columns] in [5, 50]. *)
Lemma columns_always_inRange evs :
  forall st, inRange (columns st) ->
    Forall (fun d => inRange d.1) (runEvents evs st).2.
Proof.
  induction evs as [|ev evs IH]; intros st Hc; [constructor|].
  cbn [runEvents]. specialize (IH (handle ev st) (handle_columns ev st Hc)).
  destruct (runEvents evs (handle ev st)) as [final runs]. simpl in *.
  apply Forall_app. split; [by apply quantizerRuns_columns|exact IH].
Qed.

(** The two input handlers clamp [rows] as well. *)
Lemma rows_input_inRange parsed st :
  inRange (rows st) -> inRange (rows (handle (RowsInput parsed) st)).
Proof.
  intros Hr. destruct parsed as [value|]; simpl; [|done].
  destruct (0 <? value); [apply clamp_inRange|done].
Qed.

(** C6 fails on the code: the first upload sets [rows] from the aspect
    ratio of the image without clamping it (line 133).  From the initial
    state, uploading an image of 400 x 100 pixels sets [rows] to
    [Math.round(15 * 0.25) = 4], and the effect then runs the quantizer
    with 15 columns and 4 rows. *)
Theorem upload_rows_out_of_range :
  runEvents [ImageUpload wideImage] initialState
  = ({| image := Some (src wideImage); columns := 15; rows := 4 |},
     [(15, 15); (15, 15); (15, 4)])
  /\ ~ inRange 4.
Proof. split; [vm_compute; reflexivity|unfold inRange; lia]. Qed.

(** * Further properties of the clue deriver *)

(** ** When the derivation raises *)

(** X1: [calculateNumbers] raises a [TypeError] exactly when the grid has
    no row ([grid[0]] is [undefined]) or has a row shorter than the first
    one ([row[colIndex]] is [undefined] for some column). *)
Theorem derivation_raises_iff grid :
  calculateNumbers grid = None
  <-> grid = [] \/
      exists y row, grid !! y = Some row /\ (length row < gridWidth grid)%nat.
Proof.
  rewrite calculateNumbers_None_iff. split; intros [Hnil|Hshort]; auto; right.
  - apply Exists_exists in Hshort as (row & Hin & Hlen).
    apply list_elem_of_lookup in Hin as [y Hy]. eauto.
  - destruct Hshort as (y & row & Hy & Hlen).
    apply Exists_exists. exists row. split; [|done].
    by eapply list_elem_of_lookup_2.
Qed.

Lemma columnOf_step row (rws : Grid) c :
  columnOf (row :: rws) c
  = match row !! c with
    | Some x => x :: columnOf rws c
    | None => columnOf rws c
    end.
Proof. reflexivity. Qed.

Lemma columnOf_take (rws : Grid) w c :
  (c < w)%nat -> columnOf (map (take w) rws) c = columnOf rws c.
Proof.
  intros Hc. induction rws as [|row rws IH]; [reflexivity|].
  cbn [map]. rewrite !columnOf_step, lookup_take_lt by done. by rewrite IH.
Qed.

(** X2: on a grid whose rows are all at least as long as the first row the
    derivation returns, and the column clues are those of the grid cut to
    the length of the first row: the cells a longer row has beyond that
    length count for its row clue and for no column clue. *)
Theorem column_clues_ignore_overhang grid :
  grid <> [] ->
  Forall (fun row : list NonogramCell => (gridWidth grid <= length row)%nat) grid ->
  exists rowNums colNums,
    calculateNumbers grid = Some (rowNums, colNums) /\
    rowNums = map rowNumbersOf grid /\
    length colNums = gridWidth grid /\
    calculateNumbers (trimToWidth grid)
    = Some (map rowNumbersOf (trimToWidth grid), colNums).
Proof.
  intros Hne Hall. eexists _, _. split; [by apply calculateNumbers_reach|].
  split; [reflexivity|]. split; [by rewrite length_map, length_seq|].
  assert (gridWidth (trimToWidth grid) = gridWidth grid) as Hw.
  { destruct grid as [|first rest]; [done|]. simpl. rewrite length_take. lia. }
  rewrite calculateNumbers_reach.
  - rewrite Hw. do 2 f_equal. apply map_ext_in. intros c Hc.
    apply in_seq in Hc. unfold trimToWidth. rewrite columnOf_take; [done|lia].
  - unfold trimToWidth. by destruct grid.
  - rewrite Hw. unfold trimToWidth. apply Forall_map.
    eapply Forall_impl; [exact Hall|]. simpl. intros row Hrow.
    rewrite length_take. lia.
Qed.

(** The grid [overhangGrid]: the third cell of its second row is in no
    column clue. *)
Lemma column_clues_ignore_overhang_witness :
  overhangGrid <> [] /\
  exists rowNums colNums,
    calculateNumbers overhangGrid = Some (rowNums, colNums) /\
    rowNums = map rowNumbersOf overhangGrid /\
    length colNums = gridWidth overhangGrid /\
    calculateNumbers (trimToWidth overhangGrid)
    = Some (map rowNumbersOf (trimToWidth overhangGrid), colNums).
Proof.
  split; [discriminate|].
  apply (column_clues_ignore_overhang overhangGrid).
  - discriminate.
  - repeat constructor.
Defined.

(** ** Lines put together, and lines read backwards *)

Lemma maximalRuns_nonempty_true t : maximalRuns (true :: t) <> [].
Proof.
  intros H. apply maximalRuns_nil_iff in H. inversion H; discriminate.
Qed.

Lemma addHead_app c rs rs' : rs <> [] -> addHead c (rs ++ rs') = addHead c rs ++ rs'.
Proof. by destruct rs. Qed.

Lemma maximalRuns_app_false l1 l2 :
  maximalRuns (l1 ++ false :: l2) = maximalRuns l1 ++ maximalRuns l2.
Proof.
  induction l1 as [|[] t IH]; [reflexivity| |exact IH].
  destruct t as [|[] t'].
  - reflexivity.
  - change (maximalRuns ((true :: true :: t') ++ false :: l2))
      with (addHead 1 (maximalRuns ((true :: t') ++ false :: l2))).
    rewrite IH. rewrite addHead_app by apply maximalRuns_nonempty_true. reflexivity.
  - change (maximalRuns ((true :: false :: t') ++ false :: l2))
      with (1 :: maximalRuns ((false :: t') ++ false :: l2)).
    by rewrite IH.
Qed.

Lemma maximalRuns_replicate n : maximalRuns (replicate (S n) true) = [Z.of_nat (S n)].
Proof.
  rewrite <- (app_nil_r (replicate (S n) true)).
  rewrite maximalRuns_block by (by left). reflexivity.
Qed.

Lemma maximalRuns_reverse l : maximalRuns (reverse l) = reverse (maximalRuns l).
Proof.
  pose proof (maximalRuns_RunsOf l) as H.
  induction H as [|l rs _ IH|n Hn|n l rs Hn _ IH].
  - reflexivity.
  - rewrite reverse_cons, maximalRuns_app_false, IH. simpl. by rewrite app_nil_r.
  - rewrite reverse_replicate. destruct n as [|n]; [lia|].
    by rewrite maximalRuns_replicate.
  - rewrite reverse_app, reverse_cons, reverse_replicate, <- app_assoc. simpl.
    rewrite maximalRuns_app_false, IH. destruct n as [|n]; [lia|].
    by rewrite maximalRuns_replicate, reverse_cons.
Qed.

Lemma pattern_mk l : pattern (map mk l) = l.
Proof. unfold pattern. rewrite map_map. simpl. apply map_id. Qed.

Lemma pattern_app l1 l2 : pattern (l1 ++ l2) = pattern l1 ++ pattern l2.
Proof. unfold pattern. apply map_app. Qed.

Lemma pattern_filled line :
  Exists (fun cell => filled cell = true) line -> maximalRuns (pattern line) <> [].
Proof.
  intros Hex Hnil. apply maximalRuns_nil_iff, pattern_unfilled in Hnil.
  rewrite Forall_forall in Hnil. apply Exists_exists in Hex as (cell & Hin & Hf).
  rewrite Hnil in Hf by done. discriminate.
Qed.

(** X3: an unfilled cell between two stretches of a line that both have a
    filled cell separates their clues: the clue sequence of the whole line
    is the clue sequence of the left stretch followed by that of the right
    one. *)
Theorem unfilled_cell_separates_clues left u right :
  filled u = false ->
  Exists (fun cell => filled cell = true) left ->
  Exists (fun cell => filled cell = true) right ->
  rowNumbersOf (left ++ u :: right) = rowNumbersOf left ++ rowNumbersOf right.
Proof.
  intros Hu Hl Hr. rewrite (line_filled left Hl), (line_filled right Hr).
  rewrite line_filled.
  - rewrite pattern_app. cbn [pattern map]. rewrite Hu. apply maximalRuns_app_false.
  - apply Exists_app. by left.
Qed.

(** The rows [1 1 0] and [0 1], an unfilled cell between them. *)
Lemma unfilled_cell_separates_clues_witness :
  rowNumbersOf (map mk [true; true; false] ++ mk false :: map mk [false; true])
  = rowNumbersOf (map mk [true; true; false]) ++ rowNumbersOf (map mk [false; true]).
Proof.
  apply (unfilled_cell_separates_clues
           (map mk [true; true; false]) (mk false) (map mk [false; true])).
  - reflexivity.
  - apply Exists_cons_hd. reflexivity.
  - apply Exists_cons_tl, Exists_cons_hd. reflexivity.
Defined.

Lemma maximalRuns_lineOfClues rs :
  Forall (fun n => 0 < n) rs -> maximalRuns (lineOfClues rs) = rs.
Proof.
  induction 1 as [|r rest Hr _ IH]; [reflexivity|].
  cbn [lineOfClues]. destruct (Z.to_nat r) as [|n] eqn:En; [lia|].
  destruct rest as [|r' rest'].
  - rewrite app_nil_r, maximalRuns_replicate. f_equal. lia.
  - rewrite maximalRuns_block by (right; eauto).
    cbn [maximalRuns]. rewrite IH. f_equal. lia.
Qed.

Lemma length_lineOfClues rs :
  rs <> [] -> Forall (fun n => 0 < n) rs ->
  JS.len (lineOfClues rs) = clueSum rs + (JS.len rs - 1).
Proof.
  intros Hne Hall. induction Hall as [|r rest Hr Hrest IH]; [done|].
  cbn [lineOfClues]. unfold JS.len in *. rewrite length_app, length_replicate.
  destruct rest as [|r' rest'].
  - simpl. lia.
  - cbn [length clueSum foldr] in *. specialize (IH ltac:(done)).
    fold (clueSum (r' :: rest')) in *. cbn [clueSum foldr] in IH. lia.
Qed.

(** X4: every non-empty sequence of positive integers is the clue sequence
    of a line: the line built from one block of filled cells per number,
    with a single unfilled cell between two blocks, has exactly that clue
    sequence, and its length, sum + (length - 1), is the least a line with
    these clues can have. *)
Theorem clues_of_lineOfClues rs :
  rs <> [] -> Forall (fun n => 0 < n) rs ->
  rowNumbersOf (map mk (lineOfClues rs)) = rs /\
  JS.len (map mk (lineOfClues rs)) = clueSum rs + (JS.len rs - 1) /\
  forall line, rowNumbersOf line = rs ->
    JS.len (map mk (lineOfClues rs)) <= JS.len line.
Proof.
  intros Hne Hall.
  assert (rowNumbersOf (map mk (lineOfClues rs)) = rs) as Hclue.
  { rewrite rowNumbersOf_runs, pattern_mk, maximalRuns_lineOfClues by done.
    rewrite orZero_runs. by destruct rs. }
  assert (JS.len (map mk (lineOfClues rs)) = clueSum rs + (JS.len rs - 1)) as Hlen.
  { unfold JS.len at 1. rewrite length_map. by apply length_lineOfClues. }
  split; [exact Hclue|]. split; [exact Hlen|].
  intros line Hline. rewrite Hlen, <- Hline. apply line_fit.
  destruct (decide (Exists (fun cell => filled cell = true) line)) as [Hex|Hnot]; [done|].
  exfalso. apply not_Exists_Forall in Hnot; [|apply _].
  assert (rowNumbersOf line = [0]) as H0.
  { apply line_unfilled. eapply Forall_impl; [exact Hnot|].
    simpl. intros cell. by destruct (filled cell). }
  rewrite H0 in Hline. subst rs.
  inversion Hall as [|? ? Hpos]; subst. lia.
Qed.

(** The clue sequence [3 1 2] and its line of eight cells. *)
Lemma clues_of_lineOfClues_witness :
  rowNumbersOf (map mk (lineOfClues [3; 1; 2])) = [3; 1; 2] /\
  JS.len (map mk (lineOfClues [3; 1; 2])) = clueSum [3; 1; 2] + (JS.len [3; 1; 2] - 1) /\
  forall line, rowNumbersOf line = [3; 1; 2] ->
    JS.len (map mk (lineOfClues [3; 1; 2])) <= JS.len line.
Proof.
  apply (clues_of_lineOfClues [3; 1; 2]).
  - discriminate.
  - repeat constructor.
Defined.

(** ** Margins *)

Lemma maximalRuns_unfilled n : maximalRuns (replicate n false) = [].
Proof. apply maximalRuns_nil_iff, Forall_replicate. reflexivity. Qed.

Lemma maximalRuns_margins a b l :
  maximalRuns (replicate a false ++ l ++ replicate b false) = maximalRuns l.
Proof.
  induction a as [|a IH]; [|exact IH]. cbn [replicate app].
  destruct b as [|b]; [by rewrite app_nil_r|].
  cbn [replicate]. by rewrite maximalRuns_app_false, maximalRuns_unfilled, app_nil_r.
Qed.

Lemma pattern_all_unfilled line :
  Forall (fun cell => filled cell = false) line ->
  pattern line = replicate (length line) false.
Proof.
  induction 1 as [|cell line Hcell _ IH]; [reflexivity|].
  cbn [pattern map length replicate]. fold (pattern line). by rewrite Hcell, IH.
Qed.

(** X5: unfilled margins do not change a clue.  Unfilled cells, of
    whatever colours, put before and after a line, as the white bands
    beside a letterboxed image are, leave its clue sequence as it is. *)
Theorem unfilled_margins_keep_clues before after line :
  Forall (fun cell => filled cell = false) before ->
  Forall (fun cell => filled cell = false) after ->
  rowNumbersOf (before ++ line ++ after) = rowNumbersOf line.
Proof.
  intros Hb Ha. rewrite !rowNumbersOf_runs. f_equal.
  rewrite !pattern_app.
  rewrite (pattern_all_unfilled before Hb), (pattern_all_unfilled after Ha).
  apply maximalRuns_margins.
Qed.

(** The row [1 0 1 1] with two unfilled cells of different colours before
    it and one after. *)
Lemma unfilled_margins_keep_clues_witness :
  Forall (fun cell => filled cell = false) [mk false; recolour (mk false)] /\
  Forall (fun cell => filled cell = false) [recolour (mk false)] /\
  rowNumbersOf ([mk false; recolour (mk false)] ++ map mk [true; false; true; true]
                ++ [recolour (mk false)])
  = rowNumbersOf (map mk [true; false; true; true]).
Proof.
  split; [repeat constructor|]. split; [repeat constructor|].
  apply (unfilled_margins_keep_clues
           [mk false; recolour (mk false)] [recolour (mk false)]
           (map mk [true; false; true; true])); repeat constructor.
Defined.

(** ** Mirrored grids *)

Lemma rowNumbersOf_reverse line : rowNumbersOf (reverse line) = reverse (rowNumbersOf line).
Proof.
  rewrite !rowNumbersOf_runs. unfold pattern.
  change (map ?f ?l) with (f <$> l). rewrite fmap_reverse, maximalRuns_reverse.
  rewrite !orZero_runs. destruct (maximalRuns (filled <$> line)) as [|r rs] eqn:E.
  - reflexivity.
  - destruct (reverse (r :: rs)) eqn:Er; [|reflexivity].
    apply (f_equal length) in Er. rewrite length_reverse in Er. discriminate.
Qed.

Lemma columnOf_app (g1 g2 : Grid) c : columnOf (g1 ++ g2) c = columnOf g1 c ++ columnOf g2 c.
Proof.
  induction g1 as [|row g1 IH]; [reflexivity|].
  rewrite <- app_comm_cons, !columnOf_step, IH. by destruct (row !! c).
Qed.

Lemma columnOf_reverse (grid : Grid) c : columnOf (reverse grid) c = reverse (columnOf grid c).
Proof.
  induction grid as [|row grid IH]; [reflexivity|].
  rewrite reverse_cons, columnOf_app, IH, !columnOf_step.
  destruct (row !! c); simpl; [by rewrite reverse_cons|by rewrite app_nil_r].
Qed.

Lemma columnOf_map_reverse (grid : Grid) w c :
  Forall (fun row : list NonogramCell => length row = w) grid -> (c < w)%nat ->
  columnOf (map reverse grid) c = columnOf grid (w - S c).
Proof.
  intros Hall Hc. induction Hall as [|row grid Hrow _ IH]; [reflexivity|].
  cbn [map]. rewrite !columnOf_step, IH, reverse_lookup, Hrow by lia. reflexivity.
Qed.

Lemma wellFormed_intro (grid : Grid) w :
  grid <> [] -> Forall (fun row : list NonogramCell => length row = w) grid ->
  wellFormed grid /\ gridWidth grid = w.
Proof.
  intros Hne Hall. destruct grid as [|first rest]; [done|].
  inversion Hall as [|? ? Hfirst Hrest]; subst. split; [|reflexivity].
  simpl. eapply Forall_impl; [exact Hrest|]. simpl. congruence.
Qed.

(** X6: mirroring the picture mirrors the clues.  For a non-empty
    rectangular grid, reversing every row reverses every row clue and the
    order of the column clues; reversing the order of the rows reverses the
    order of the row clues and every column clue. *)
Theorem mirrored_grid_clues grid rowNums colNums :
  wellFormed grid ->
  calculateNumbers grid = Some (rowNums, colNums) ->
  calculateNumbers (map reverse grid) = Some (map reverse rowNums, reverse colNums) /\
  calculateNumbers (reverse grid) = Some (reverse rowNums, map reverse colNums).
Proof.
  intros Hwf Hcalc. rewrite calculateNumbers_wellFormed in Hcalc by done.
  injection Hcalc as <- <-.
  pose proof (wellFormed_Forall grid Hwf) as Hall.
  assert (grid <> []) as Hne by (by destruct grid).
  split.
  - destruct (wellFormed_intro (map reverse grid) (gridWidth grid)) as [Hwf' Hw'].
    { by destruct grid. }
    { apply Forall_map. eapply Forall_impl; [exact Hall|]. simpl.
      intros row Hrow. by rewrite length_reverse. }
    rewrite calculateNumbers_wellFormed, Hw' by done. f_equal. f_equal.
    + rewrite !map_map. apply map_ext. intros row. apply rowNumbersOf_reverse.
    + apply list_eq. intros i. change (map ?f ?l) with (f <$> l).
      destruct (decide (i < gridWidth grid)%nat) as [Hi|Hi].
      * rewrite reverse_lookup by (by rewrite length_fmap, length_seq).
        rewrite !list_lookup_fmap, length_fmap, length_seq.
        rewrite !lookup_seq_lt by lia. simpl.
        by rewrite (columnOf_map_reverse grid (gridWidth grid)).
      * rewrite !lookup_ge_None_2; [done| |];
          rewrite ?length_reverse, length_fmap, length_seq; lia.
  - destruct (wellFormed_intro (reverse grid) (gridWidth grid)) as [Hwf' Hw'].
    { intros Hrev. apply (f_equal length) in Hrev. rewrite length_reverse in Hrev.
      by destruct grid. }
    { rewrite Forall_forall in *. intros row Hin. apply Hall.
      by apply (proj1 (elem_of_reverse row grid)). }
    rewrite calculateNumbers_wellFormed, Hw' by done. f_equal. f_equal.
    + change (map ?f ?l) with (f <$> l). by rewrite fmap_reverse.
    + rewrite map_map. apply map_ext. intros c.
      by rewrite columnOf_reverse, rowNumbersOf_reverse.
Qed.

(** The sample grid, mirrored left to right and top to bottom. *)
Lemma mirrored_grid_clues_witness :
  wellFormed sampleGrid /\
  calculateNumbers (map reverse sampleGrid)
  = Some (map reverse [[2; 1]; [1]; [4]], reverse [[1; 1]; [3]; [1]; [1; 1]]) /\
  calculateNumbers (reverse sampleGrid)
  = Some (reverse [[2; 1]; [1]; [4]], map reverse [[1; 1]; [3]; [1]; [1; 1]]).
Proof.
  split; [repeat constructor|].
  apply (mirrored_grid_clues sampleGrid [[2; 1]; [1]; [4]] [[1; 1]; [3]; [1]; [1; 1]]).
  - repeat constructor.
  - reflexivity.
Defined.

(** ** The two totals of a puzzle *)

Lemma filledCount_cons x line :
  filledCount (x :: line) = (if filled x then 1 else 0) + filledCount line.
Proof.
  unfold filledCount, JS.len. cbn [pattern map List.filter].
  destruct (filled x); cbn [length]; unfold pattern; lia.
Qed.

Lemma filledCount_zip row (T : Grid) :
  length row = length T ->
  clueSum (map filledCount (zip_with cons row T))
  = filledCount row + clueSum (map filledCount T).
Proof.
  revert T. induction row as [|x row IH]; intros [|col T] Hlen; try discriminate.
  - reflexivity.
  - cbn [zip_with map clueSum foldr]. fold (clueSum (map filledCount (zip_with cons row T))).
    fold (clueSum (map filledCount T)).
    rewrite IH by (simpl in Hlen; lia). rewrite !filledCount_cons. lia.
Qed.

Lemma length_transposeW w (grid : Grid) :
  Forall (fun row : list NonogramCell => length row = w) grid ->
  length (transposeW w grid) = w.
Proof. intros Hall. by rewrite transposeW_columns, length_map, length_seq. Qed.

Lemma filledCount_transposeW w (grid : Grid) :
  Forall (fun row : list NonogramCell => length row = w) grid ->
  clueSum (map filledCount (transposeW w grid)) = clueSum (map filledCount grid).
Proof.
  induction 1 as [|row rest Hrow Hrest IH].
  - simpl. induction w as [|w IHw]; [reflexivity|]. simpl. exact IHw.
  - cbn [transposeW]. rewrite filledCount_zip by (by rewrite length_transposeW).
    rewrite IH. reflexivity.
Qed.

(** X7: the two totals of a puzzle agree.  For a non-empty rectangular
    grid the sum of all the row clues equals the sum of all the column
    clues: both count the filled cells of the grid. *)
Theorem clue_totals_agree grid rowNums colNums :
  wellFormed grid ->
  calculateNumbers grid = Some (rowNums, colNums) ->
  clueSum (map clueSum rowNums) = clueSum (map filledCount grid) /\
  clueSum (map clueSum colNums) = clueSum (map filledCount grid).
Proof.
  intros Hwf Hcalc. rewrite calculateNumbers_wellFormed in Hcalc by done.
  injection Hcalc as <- <-. split.
  - rewrite map_map. f_equal. apply map_ext. intros row. apply line_sum.
  - rewrite <- (filledCount_transposeW (gridWidth grid)) by (by apply wellFormed_Forall).
    rewrite transposeW_columns by (by apply wellFormed_Forall).
    rewrite !map_map. f_equal. apply map_ext. intros c. apply line_sum.
Qed.

(** The sample grid: eight filled cells. *)
Lemma clue_totals_agree_witness :
  wellFormed sampleGrid /\
  clueSum (map clueSum [[2; 1]; [1]; [4]]) = clueSum (map filledCount sampleGrid) /\
  clueSum (map clueSum [[1; 1]; [3]; [1]; [1; 1]]) = clueSum (map filledCount sampleGrid).
Proof.
  split; [repeat constructor|].
  apply (clue_totals_agree sampleGrid [[2; 1]; [1]; [4]] [[1; 1]; [3]; [1]; [1; 1]]).
  - repeat constructor.
  - reflexivity.
Defined.

(** ** The width of the clue gutters *)

Lemma len_le_clueSum rs : Forall (fun n => 0 < n) rs -> JS.len rs <= clueSum rs.
Proof.
  induction 1 as [|r rs Hr _ IH]; [done|].
  rewrite len_cons. cbn [clueSum foldr]. fold (clueSum rs). lia.
Qed.

Lemma line_length_bound line :
  1 <= JS.len (rowNumbersOf line) <= Z.max 1 ((JS.len line + 1) / 2).
Proof.
  destruct (decide (Exists (fun cell => filled cell = true) line)) as [Hex|Hnot].
  - pose proof (line_fit line Hex) as Hfit. rewrite (line_filled line Hex) in *.
    pose proof (len_le_clueSum _ (maximalRuns_pos (pattern line))) as Hle.
    pose proof (pattern_filled line Hex) as Hne.
    assert (1 <= JS.len (maximalRuns (pattern line))) as H1.
    { destruct (maximalRuns (pattern line)); [done|]. rewrite len_cons.
      pose proof (len_nonneg l). lia. }
    split; [exact H1|].
    assert (JS.len (maximalRuns (pattern line)) <= (JS.len line + 1) / 2); [|lia].
    apply Z.div_le_lower_bound; lia.
  - apply not_Exists_Forall in Hnot; [|apply _].
    rewrite line_unfilled.
    + unfold JS.len at 1 2. simpl. lia.
    + eapply Forall_impl; [exact Hnot|]. simpl. intros cell. by destruct (filled cell).
Qed.

Lemma foldl_max_bounds lo hi rest :
  forall x,
    lo <= x <= hi -> Forall (fun y => lo <= y <= hi) rest ->
    lo <= foldl Z.max x rest <= hi /\
    x <= foldl Z.max x rest /\
    Forall (fun y => y <= foldl Z.max x rest) rest.
Proof.
  induction rest as [|y rest IH]; intros x Hx Hall.
  - simpl. repeat split; (lia || constructor).
  - inversion Hall as [|? ? Hy Hrest]; subst. cbn [foldl].
    destruct (IH (Z.max x y)) as (Hb & Hm & Hf); [lia|done|].
    split; [exact Hb|]. split; [lia|]. constructor; [lia|exact Hf].
Qed.

Lemma Math_max_bounds lo hi xs :
  xs <> [] -> Forall (fun y => lo <= y <= hi) xs ->
  exists m, Math_max xs = Num m /\ lo <= m <= hi /\ Forall (fun y => y <= m) xs.
Proof.
  intros Hne Hall. destruct xs as [|x rest]; [done|].
  inversion Hall as [|? ? Hx Hrest]; subst.
  destruct (foldl_max_bounds lo hi rest x Hx Hrest) as (Hb & Hm & Hf).
  exists (foldl Z.max x rest). split; [reflexivity|]. split; [exact Hb|].
  by constructor.
Qed.

(** X8: the widths the page reserves for the clues.  For the clues of a
    non-empty rectangular grid, [maxRowNumbersLength] is an integer
    between 1 and half the number of columns, rounded up (1 for a grid
    without columns), and no row clue is longer; [maxColumnNumbersLength]
    is an integer between 1 and half the number of rows, rounded up, when
    the grid has a column, and [-Infinity] when it has none. *)
Theorem clue_gutter_bounds grid rowNums colNums :
  wellFormed grid ->
  calculateNumbers grid = Some (rowNums, colNums) ->
  (exists m, maxRowNumbersLength rowNums = Num m /\
     1 <= m <= Z.max 1 ((Z.of_nat (gridWidth grid) + 1) / 2) /\
     Forall (fun numbers => JS.len numbers <= m) rowNums) /\
  (gridWidth grid = 0%nat -> maxColumnNumbersLength colNums = NegInfinity) /\
  ((0 < gridWidth grid)%nat ->
   exists m, maxColumnNumbersLength colNums = Num m /\
     1 <= m <= (JS.len grid + 1) / 2 /\
     Forall (fun numbers => JS.len numbers <= m) colNums).
Proof.
  intros Hwf Hcalc. rewrite calculateNumbers_wellFormed in Hcalc by done.
  injection Hcalc as <- <-.
  assert (1 <= JS.len grid) as Hrows.
  { destruct grid; [done|]. rewrite len_cons. pose proof (len_nonneg grid). lia. }
  split; [|split].
  - unfold maxRowNumbersLength.
    destruct (Math_max_bounds 1 (Z.max 1 ((Z.of_nat (gridWidth grid) + 1) / 2))
                (map (fun arr => JS.len arr) (map rowNumbersOf grid)))
      as (m & Hm & Hb & Hf).
    + by destruct grid.
    + rewrite map_map. apply Forall_map. simpl.
      pose proof (wellFormed_Forall grid Hwf) as Hall.
      eapply Forall_impl; [exact Hall|]. simpl. intros row Hrow.
      pose proof (line_length_bound row) as Hl. unfold JS.len at 3 in Hl.
      by rewrite Hrow in Hl.
    + exists m. split; [exact Hm|]. split; [exact Hb|].
      rewrite Forall_map in Hf. exact Hf.
  - intros ->. reflexivity.
  - intros Hw. unfold maxColumnNumbersLength.
    destruct (Math_max_bounds 1 ((JS.len grid + 1) / 2)
                (map (fun arr => JS.len arr)
                   (map (fun c => rowNumbersOf (columnOf grid c)) (seq 0 (gridWidth grid)))))
      as (m & Hm & Hb & Hf).
    + destruct (gridWidth grid); [lia|done].
    + rewrite map_map. apply Forall_map, Forall_forall. intros c Hc.
      apply elem_of_seq in Hc. simpl.
      pose proof (line_length_bound (columnOf grid c)) as Hl.
      unfold JS.len at 3 in Hl.
      rewrite columnOf_length in Hl by (apply wellFormed_lookup; (done || lia)).
      fold (JS.len grid) in Hl.
      assert (1 <= (JS.len grid + 1) / 2) by (apply Z.div_le_lower_bound; lia). lia.
    + exists m. split; [exact Hm|]. split; [exact Hb|].
      rewrite Forall_map in Hf. exact Hf.
Qed.

(** The sample grid: at most two numbers in a row clue and in a column
    clue. *)
Lemma clue_gutter_bounds_witness :
  wellFormed sampleGrid /\
  (exists m, maxRowNumbersLength [[2; 1]; [1]; [4]] = Num m /\
     1 <= m <= Z.max 1 ((Z.of_nat (gridWidth sampleGrid) + 1) / 2) /\
     Forall (fun numbers => JS.len numbers <= m) [[2; 1]; [1]; [4]]) /\
  (gridWidth sampleGrid = 0%nat ->
   maxColumnNumbersLength [[1; 1]; [3]; [1]; [1; 1]] = NegInfinity) /\
  ((0 < gridWidth sampleGrid)%nat ->
   exists m, maxColumnNumbersLength [[1; 1]; [3]; [1]; [1; 1]] = Num m /\
     1 <= m <= (JS.len sampleGrid + 1) / 2 /\
     Forall (fun numbers => JS.len numbers <= m) [[1; 1]; [3]; [1]; [1; 1]]).
Proof.
  split; [repeat constructor|].
  apply (clue_gutter_bounds sampleGrid [[2; 1]; [1]; [4]] [[1; 1]; [3]; [1]; [1; 1]]).
  - repeat constructor.
  - reflexivity.
Defined.

(** * Further properties of the grid quantizer *)

(** ** The alpha channel *)

Lemma get_setAlpha alpha data k j :
  0 <= j < 3 -> JS.get (setAlpha alpha data) (k * 4 + j) = JS.get data (k * 4 + j).
Proof.
  intros Hj. unfold JS.get. destruct (Z.ltb_spec (k * 4 + j) 0) as [|Hpos]; [reflexivity|].
  unfold setAlpha. rewrite list_lookup_imap.
  destruct (data !! Z.to_nat (k * 4 + j)) as [v|]; [|reflexivity]. simpl.
  rewrite Z2Nat.id by lia.
  rewrite Z.add_comm, Z_mod_plus_full, Z.mod_small by lia.
  destruct (Z.eqb_spec j 3); [lia|reflexivity].
Qed.

Lemma cellAt_setAlpha alpha data k :
  cellAt (setAlpha alpha data) (k * 4) = cellAt data (k * 4).
Proof.
  pose proof (get_setAlpha alpha data k 0 ltac:(lia)) as H0.
  pose proof (get_setAlpha alpha data k 1 ltac:(lia)) as H1.
  pose proof (get_setAlpha alpha data k 2 ltac:(lia)) as H2.
  rewrite Z.add_0_r in H0.
  unfold cellAt, brightnessAt, readNumber, readString. by rewrite H0, H1, H2.
Qed.

(** X9: the quantizer never reads the alpha channel.  Whatever values the
    fourth byte of every pixel takes, the grid and the clues are the
    same. *)
Theorem alpha_is_ignored alpha data columns rows :
  generateNonogram (setAlpha alpha data) columns rows
  = generateNonogram data columns rows.
Proof.
  unfold generateNonogram.
  assert (buildGrid (setAlpha alpha data) columns rows = buildGrid data columns rows) as ->;
    [|reflexivity].
  rewrite !buildGrid_map. apply map_ext. intros y.
  rewrite !buildRow_map. apply map_ext. intros x. apply cellAt_setAlpha.
Qed.

(** ** Darkness *)

Lemma filled_cellOfColour r g b :
  0 <= r < 256 -> 0 <= g < 256 -> 0 <= b < 256 ->
  filled (cellOfColour r g b) = (r + g + b <? 384).
Proof.
  intros Hr Hg Hb. unfold cellOfColour. cbn [filled cellAt].
  rewrite (brightnessAt_bytes [r; g; b; 255] 0 r g b) by (reflexivity || lia).
  apply threshold_exact. lia.
Qed.

(** X10: thresholding is monotone in darkness, the rounding of the division
    notwithstanding: a pixel at most as bright in each channel as a pixel
    that gives a filled cell gives a filled cell, and a grey pixel
    [(v, v, v)] gives a filled cell exactly when [v <= 127]. *)
Theorem darker_pixel_stays_filled r g b r' g' b' :
  0 <= r' <= r -> 0 <= g' <= g -> 0 <= b' <= b ->
  r < 256 -> g < 256 -> b < 256 ->
  (filled (cellOfColour r g b) = true -> filled (cellOfColour r' g' b') = true) /\
  (r = g -> g = b -> filled (cellOfColour r g b) = (r <=? 127)).
Proof.
  intros Hr Hg Hb Rr Rg Rb. rewrite !filled_cellOfColour by lia. split.
  - rewrite !Z.ltb_lt. lia.
  - intros -> ->. destruct (Z.ltb_spec (b + b + b) 384), (Z.leb_spec b 127); (reflexivity || lia).
Qed.

(** The greys 127 and 128. *)
Lemma darker_pixel_stays_filled_witness :
  (filled (cellOfColour 128 128 128) = true -> filled (cellOfColour 127 127 127) = true) /\
  (128 = 128 -> 128 = 128 -> filled (cellOfColour 128 128 128) = (128 <=? 127)).
Proof.
  apply (darker_pixel_stays_filled 128 128 128 127 127 127); lia.
Defined.

(** ** A canvas of one colour *)

Lemma map_const_in {A B} (f : A -> B) c (l : list A) :
  (forall x, x ∈ l -> f x = c) -> map f l = replicate (length l) c.
Proof.
  induction l as [|x l IH]; intros Hf; [reflexivity|].
  cbn [map length replicate]. rewrite Hf by apply list_elem_of_here.
  rewrite IH; [reflexivity|]. intros y Hy. apply Hf. by apply list_elem_of_further.
Qed.

Lemma uniformData_lookup n r g b k j :
  (k < n)%nat -> (j < 4)%nat ->
  uniformData n r g b !! (4 * k + j)%nat = [r; g; b; 255] !! j.
Proof.
  revert k. induction n as [|n IH]; intros k Hk Hj; [lia|].
  destruct k as [|k].
  - do 4 (destruct j as [|j]; [reflexivity|]). lia.
  - replace (4 * S k + j)%nat with (S (S (S (S (4 * k + j))))) by lia.
    unfold uniformData in *. cbn [replicate concat app lookup list_lookup].
    apply IH; lia.
Qed.

Lemma get_uniformData n r g b k j :
  0 <= k < Z.of_nat n -> 0 <= j < 4 ->
  JS.get (uniformData n r g b) (k * 4 + j) = JS.get [r; g; b; 255] j.
Proof.
  intros Hk Hj. unfold JS.get.
  destruct (Z.ltb_spec (k * 4 + j) 0), (Z.ltb_spec j 0); try lia.
  replace (Z.to_nat (k * 4 + j)) with (4 * Z.to_nat k + Z.to_nat j)%nat by lia.
  apply uniformData_lookup; lia.
Qed.

Lemma cellAt_uniformData n r g b k :
  0 <= k < Z.of_nat n -> cellAt (uniformData n r g b) (k * 4) = cellOfColour r g b.
Proof.
  intros Hk.
  pose proof (get_uniformData n r g b k 0 Hk ltac:(lia)) as H0.
  pose proof (get_uniformData n r g b k 1 Hk ltac:(lia)) as H1.
  pose proof (get_uniformData n r g b k 2 Hk ltac:(lia)) as H2.
  rewrite Z.add_0_r in H0.
  unfold cellOfColour, cellAt, brightnessAt, readNumber, readString.
  by rewrite H0, H1, H2.
Qed.

Lemma buildGrid_uniformData r g b columns rows :
  0 <= columns -> 0 <= rows ->
  buildGrid (uniformData (Z.to_nat (columns * rows)) r g b) columns rows
  = replicate (Z.to_nat rows) (replicate (Z.to_nat columns) (cellOfColour r g b)).
Proof.
  intros Hc Hr. rewrite buildGrid_map.
  rewrite (map_const_in _ (replicate (Z.to_nat columns) (cellOfColour r g b)));
    [by rewrite length_seqZ|].
  intros y Hy. apply elem_of_seqZ in Hy. rewrite buildRow_map.
  rewrite (map_const_in _ (cellOfColour r g b)); [by rewrite length_seqZ|].
  intros x Hx. apply elem_of_seqZ in Hx. apply cellAt_uniformData. nia.
Qed.

Lemma columnOf_replicate R C (c0 : NonogramCell) c :
  (c < C)%nat -> columnOf (replicate R (replicate C c0)) c = replicate R c0.
Proof.
  intros Hc. induction R as [|R IH]; [reflexivity|].
  cbn [replicate]. by rewrite columnOf_step, lookup_replicate_2, IH.
Qed.

Lemma rowNumbersOf_replicate n (c0 : NonogramCell) :
  rowNumbersOf (replicate (S n) c0) = if filled c0 then [Z.of_nat (S n)] else [0].
Proof.
  destruct (filled c0) eqn:Hf.
  - rewrite rowNumbersOf_runs. unfold pattern.
    change (map ?f ?l) with (f <$> l). rewrite fmap_replicate, Hf.
    by rewrite maximalRuns_replicate.
  - apply line_unfilled, Forall_replicate. exact Hf.
Qed.

Lemma calculateNumbers_replicate R C (c0 : NonogramCell) :
  calculateNumbers (replicate (S R) (replicate (S C) c0))
  = Some (replicate (S R) (rowNumbersOf (replicate (S C) c0)),
          replicate (S C) (rowNumbersOf (replicate (S R) c0))).
Proof.
  assert (gridWidth (replicate (S R) (replicate (S C) c0)) = S C) as Hw
    by (simpl; by rewrite length_replicate).
  rewrite calculateNumbers_wellFormed, Hw.
  - rewrite (map_const_in _ (rowNumbersOf (replicate (S C) c0))).
    + rewrite (map_const_in _ (rowNumbersOf (replicate (S R) c0))).
      * by rewrite length_replicate, length_seq.
      * intros c Hin. apply elem_of_seq in Hin.
        rewrite columnOf_replicate by lia. reflexivity.
    + intros row Hin. by apply elem_of_replicate in Hin as [-> _].
  - cbn [replicate wellFormed]. apply Forall_replicate. reflexivity.
Qed.

(** X11: a canvas of a single colour.  For positive [columns] and [rows]
    and a canvas whose pixels all have the colour [(r, g, b)], every cell
    of the grid is the cell of that colour; when the colour is dark,
    [r + g + b < 384], every row clue is [[columns]] and every column clue
    is [[rows]], and otherwise every clue is [[0]]. *)
Theorem uniform_canvas_clues r g b columns rows :
  1 <= columns -> 1 <= rows ->
  0 <= r < 256 -> 0 <= g < 256 -> 0 <= b < 256 ->
  generateNonogram (uniformData (Z.to_nat (columns * rows)) r g b) columns rows
  = (replicate (Z.to_nat rows) (replicate (Z.to_nat columns) (cellOfColour r g b)),
     Some (if r + g + b <? 384
           then (replicate (Z.to_nat rows) [columns], replicate (Z.to_nat columns) [rows])
           else (replicate (Z.to_nat rows) [0], replicate (Z.to_nat columns) [0]))).
Proof.
  intros Hc Hr Rr Rg Rb. unfold generateNonogram.
  rewrite buildGrid_uniformData by lia. f_equal.
  destruct (Z.to_nat rows) as [|R] eqn:ER; [lia|].
  destruct (Z.to_nat columns) as [|C] eqn:EC; [lia|].
  rewrite calculateNumbers_replicate, !rowNumbersOf_replicate.
  rewrite filled_cellOfColour by lia.
  replace (Z.of_nat (S C)) with columns by lia.
  replace (Z.of_nat (S R)) with rows by lia.
  by destruct (r + g + b <? 384).
Qed.

(** A black canvas of 7 x 3 pixels. *)
Lemma uniform_canvas_clues_witness :
  generateNonogram (uniformData (Z.to_nat (7 * 3)) 0 0 0) 7 3
  = (replicate (Z.to_nat 3) (replicate (Z.to_nat 7) (cellOfColour 0 0 0)),
     Some (if 0 + 0 + 0 <? 384
           then (replicate (Z.to_nat 3) [7], replicate (Z.to_nat 7) [3])
           else (replicate (Z.to_nat 3) [0], replicate (Z.to_nat 7) [0]))).
Proof. apply (uniform_canvas_clues 0 0 0 7 3); lia. Defined.

(** ** Dimensions outside [5, 50] *)

(** X12: the quantizer and the clue deriver do not depend on the range
    [5, 50].  For any positive [columns] and [rows], 4 rows or 60 as the
    first upload can set them included, the grid has [rows] rows of
    [columns] cells and the derivation returns [rows] row clues and
    [columns] column clues. *)
Theorem quantize_any_positive_dimensions data columns rows :
  1 <= columns -> 1 <= rows ->
  exists grid rowNums colNums,
    generateNonogram data columns rows = (grid, Some (rowNums, colNums)) /\
    JS.len grid = rows /\
    Forall (fun row => JS.len row = columns) grid /\
    JS.len rowNums = rows /\
    JS.len colNums = columns.
Proof.
  intros Hc Hr. unfold generateNonogram.
  assert (wellFormed (buildGrid data columns rows)) as Hwf
    by (apply buildGrid_wellFormed; lia).
  destruct (buildGrid_shape data columns rows) as (Hlen & Hrows & _); [lia|lia|].
  rewrite (calculateNumbers_wellFormed _ Hwf). eexists _, _, _.
  split; [reflexivity|]. split; [exact Hlen|]. split; [exact Hrows|].
  unfold JS.len in *. rewrite !length_map, length_seq. split; [exact Hlen|].
  destruct (buildGrid data columns rows) as [|first rest]; [done|].
  inversion Hrows; subst. simpl. done.
Qed.

(** The dimensions 15 x 4 that the upload of the wide image leads to. *)
Lemma quantize_any_positive_dimensions_witness :
  exists grid rowNums colNums,
    generateNonogram (uniformData 60 0 0 0) 15 4 = (grid, Some (rowNums, colNums)) /\
    JS.len grid = 4 /\
    Forall (fun row => JS.len row = 15) grid /\
    JS.len rowNums = 4 /\
    JS.len colNums = 15.
Proof. apply (quantize_any_positive_dimensions (uniformData 60 0 0 0) 15 4); lia. Defined.

(** * Further properties of the [columns] and [rows] state *)

Lemma runEvents_cons ev evs st :
  runEvents (ev :: evs) st
  = ((runEvents evs (handle ev st)).1,
     quantizerRuns ev st ++ (runEvents evs (handle ev st)).2).
Proof. cbn [runEvents]. by destruct (runEvents evs (handle ev st)). Qed.

Lemma final_columns_inRange evs :
  forall st, inRange (columns st) -> inRange (columns (runEvents evs st).1).
Proof.
  induction evs as [|ev evs IH]; intros st Hc; [exact Hc|].
  rewrite runEvents_cons. simpl. apply IH. by apply handle_columns.
Qed.

(** X13: [columns] never leaves [5, 50].  Whatever events follow the
    initial render, [columns] is in range in the state they lead to and in
    every call of the quantizer on the way. *)
Theorem columns_never_out_of_range evs :
  inRange (columns (runEvents evs initialState).1) /\
  Forall (fun d => inRange d.1) (runEvents evs initialState).2.
Proof.
  assert (inRange (columns initialState)) as H0 by (unfold inRange; simpl; lia).
  split; [by apply final_columns_inRange|by apply columns_always_inRange].
Qed.

Lemma handle_input_image ev st :
  isInput ev = true -> image (handle ev st) = image st.
Proof.
  destruct ev as [[value|]|[value|]|img]; simpl; try done; intros _;
    by destruct (0 <? value).
Qed.

Lemma effectRuns_no_image st st' : image st' = None -> effectRuns st st' = [].
Proof. intros H. unfold effectRuns. rewrite H. by case_bool_decide. Qed.

(** X14: nothing is quantized before an image is uploaded.  From a state
    without an image, changes of the two number inputs call the quantizer
    not once and leave the state without an image. *)
Theorem no_quantizer_run_before_upload evs :
  forall st,
    image st = None ->
    Forall (fun ev => isInput ev = true) evs ->
    (runEvents evs st).2 = [] /\ image (runEvents evs st).1 = None.
Proof.
  induction evs as [|ev evs IH]; intros st Himg Hall; [done|].
  inversion Hall as [|? ? Hev Hrest]; subst.
  rewrite runEvents_cons. cbn [fst snd].
  assert (image (handle ev st) = None) as Himg'
    by (by rewrite handle_input_image).
  destruct (IH (handle ev st) Himg' Hrest) as [Hruns Hfinal].
  rewrite Hruns, app_nil_r. split; [|exact Hfinal].
  destruct ev as [parsed|parsed|img]; [| |discriminate];
    cbn [quantizerRuns]; by apply effectRuns_no_image.
Qed.

(** Changes of both inputs, some of them out of range, before any upload. *)
Lemma no_quantizer_run_before_upload_witness :
  (runEvents [ColumnsInput (Some 20); RowsInput (Some 3); ColumnsInput None] initialState).2 = []
  /\ image (runEvents [ColumnsInput (Some 20); RowsInput (Some 3); ColumnsInput None]
              initialState).1 = None.
Proof.
  apply (no_quantizer_run_before_upload
           [ColumnsInput (Some 20); RowsInput (Some 3); ColumnsInput None] initialState).
  - reflexivity.
  - repeat constructor.
Defined.

Lemma handle_keeps_image ev st : image st <> None -> image (handle ev st) <> None.
Proof.
  intros Himg. destruct ev as [[value|]|[value|]|img]; simpl; try done;
    by destruct (0 <? value).
Qed.

Lemma handle_rows_with_image ev st :
  image st <> None -> inRange (rows st) -> inRange (rows (handle ev st)).
Proof.
  intros Himg Hr. destruct ev as [[value|]|parsed|img]; simpl; try done.
  - by destruct (0 <? value).
  - by apply rows_input_inRange.
  - unfold rowsAfterUpload. by destruct (image st).
Qed.

Lemma effectRuns_inRange st st' :
  inRange (columns st') -> inRange (rows st') ->
  Forall (fun d => inRange d.1 /\ inRange d.2) (effectRuns st st').
Proof.
  intros Hc Hr. unfold effectRuns. case_bool_decide; [constructor|].
  destruct (image st'); constructor; [by split|constructor].
Qed.

(** X15: only the first upload can take [rows] out of range.  From a
    state that has an image and has [columns] and [rows] in [5, 50],
    whatever events follow, every call of the quantizer has both in range,
    and so has the state they lead to; a later upload changes neither. *)
Theorem rows_in_range_once_image_present evs :
  forall st,
    image st <> None -> inRange (columns st) -> inRange (rows st) ->
    Forall (fun d => inRange d.1 /\ inRange d.2) (runEvents evs st).2 /\
    inRange (columns (runEvents evs st).1) /\
    inRange (rows (runEvents evs st).1) /\
    forall img, dims (handle (ImageUpload img) st) = dims st.
Proof.
  induction evs as [|ev evs IH]; intros st Himg Hc Hr.
  - split; [constructor|]. split; [exact Hc|]. split; [exact Hr|].
    intros img. unfold dims. simpl. unfold rowsAfterUpload. by destruct (image st).
  - rewrite runEvents_cons. cbn [fst snd].
    pose proof (handle_keeps_image ev st Himg) as Himg'.
    pose proof (handle_columns ev st Hc) as Hc'.
    pose proof (handle_rows_with_image ev st Himg Hr) as Hr'.
    destruct (IH (handle ev st) Himg' Hc' Hr') as (Hruns & Hfc & Hfr & _).
    split; [|split; [exact Hfc|split; [exact Hfr|]]].
    + apply Forall_app. split; [|exact Hruns].
      destruct ev as [parsed|parsed|img]; cbn [quantizerRuns];
        try (by apply effectRuns_inRange).
      rewrite !Forall_app. split; [|split].
      * by apply effectRuns_inRange.
      * constructor; [by split|constructor].
      * by apply effectRuns_inRange.
    + intros img. unfold dims. simpl. unfold rowsAfterUpload. by destruct (image st).
Qed.

(** A state with an image, then a second upload and two input changes. *)
Lemma rows_in_range_once_image_present_witness :
  Forall (fun d => inRange d.1 /\ inRange d.2)
    (runEvents [ImageUpload wideImage; RowsInput (Some 3); ColumnsInput (Some 80)]
       loadedState).2 /\
  inRange (columns (runEvents [ImageUpload wideImage; RowsInput (Some 3);
                               ColumnsInput (Some 80)] loadedState).1) /\
  inRange (rows (runEvents [ImageUpload wideImage; RowsInput (Some 3);
                            ColumnsInput (Some 80)] loadedState).1) /\
  forall img, dims (handle (ImageUpload img) loadedState) = dims loadedState.
Proof.
  apply (rows_in_range_once_image_present
           [ImageUpload wideImage; RowsInput (Some 3); ColumnsInput (Some 80)]
           loadedState).
  - discriminate.
  - unfold inRange. simpl. lia.
  - unfold inRange. simpl. lia.
Defined.
